(** * photobuchauswahltool: directory synchronisation and image paging

    A shallow embedding of the non-GUI core of
    [src/photobuchauswahltool/__main__.py]:

    - the three directory helpers [is_file_in_directory],
      [copy_file_to_directory] and [delete_file_in_directory], run against a
      finite-map model of the file system;
    - the class [CurrentImagesProvider] with its methods [skim], [get] and
      [progress], and the part of [PhotoSelectionGUI] that drives them.

    Python code is embedded in a small monad that threads the mutable state,
    records what is written to standard output, and either returns a value or
    raises an exception.  Python integers are unbounded, hence [Z]. *)

From Stdlib Require Import ZArith QArith.
From stdpp Require Import base tactics option list strings pretty gmap fin_maps sorting.

Local Open Scope string_scope.
Local Open Scope Z_scope.

(** ** Exceptions and the execution monad *)

(** The exceptions that the embedded code can raise.  [ValueError] is the only
    one the program raises itself (with a message); the others come from the
    interpreter ([ZeroDivisionError]) or from [pathlib] and [shutil]. *)
Inductive exn : Type :=
  | ValueError (message : string)
  | ZeroDivisionError
  | FileNotFoundError
  | IsADirectoryError
  | NotADirectoryError
  | SameFileError
  | SpecialFileError.

Global Instance exn_eq_dec : EqDecision exn.
Proof. solve_decision. Defined.

(** The result of running a computation: how it ended, the state it left
    behind (an exception does not roll the state back), and the text it
    printed. *)
Record run (S A : Type) : Type := Run {
  outcome : exn + A;
  final : S;
  printed : string
}.
Arguments Run {S A} _ _ _.
Arguments outcome {S A} _.
Arguments final {S A} _.
Arguments printed {S A} _.

Definition M (S A : Type) : Type := S → run S A.

Definition ret {S A} (a : A) : M S A :=
  λ s, Run (inr a) s EmptyString.

Definition raise {S A} (e : exn) : M S A :=
  λ s, Run (inl e) s EmptyString.

Definition bind {S A B} (m : M S A) (f : A → M S B) : M S B :=
  λ s,
    let r := m s in
    match outcome r with
    | inl e => Run (inl e) (final r) (printed r)
    | inr a =>
        let r' := f a (final r) in
        Run (outcome r') (final r') (printed r +:+ printed r')
    end.

Definition gets {S A} (f : S → A) : M S A :=
  λ s, Run (inr (f s)) s EmptyString.

Definition put {S} (s' : S) : M S unit :=
  λ _, Run (inr tt) s' EmptyString.

Definition newline : string := String (Ascii.ascii_of_nat 10) EmptyString.

(** [print(text, end=e)]; the default for [e] is a newline. *)
Definition print_end {S} (text e : string) : M S unit :=
  λ s, Run (inr tt) s (text +:+ e).

Definition print {S} (text : string) : M S unit := print_end text newline.

Global Instance M_ret {S} : MRet (M S) := λ A, @ret S A.
Global Instance M_bind {S} : MBind (M S) := λ A B f m, @bind S A B m f.

(** How a computation ended. *)
Definition returns {S A} (r : run S A) (a : A) : Prop := outcome r = inr a.
Definition raises {S A} (r : run S A) (e : exn) : Prop := outcome r = inl e.

Definition is_ValueError (e : exn) : bool :=
  match e with ValueError _ => true | _ => false end.

(** The computation ended with a [ValueError], whatever its message. *)
Definition raises_ValueError {S A} (r : run S A) : Prop :=
  ∃ message, outcome r = inl (ValueError message).

(** ** Paths ([pathlib.PurePosixPath]) *)

(** A path is its anchor (is it absolute?) and its components.  [pathlib]
    drops empty and ["."] components when a path is built, so [parts] holds
    names only. *)
Record Path : Type := mkPath {
  anchored : bool;
  parts : list string
}.

Global Instance Path_eq_dec : EqDecision Path.
Proof. solve_decision. Defined.

Global Instance Path_countable : Countable Path.
Proof.
  refine (inj_countable' (λ p, (anchored p, parts p))
                         (λ ap, mkPath (fst ap) (snd ap)) _).
  by intros [].
Defined.

(** [path.name]: the final component, or the empty string when there is
    none (the path is the root or the current directory). *)
Definition name (p : Path) : string :=
  default EmptyString (last (parts p)).

(** [directory / component] for a single component; an empty component
    changes nothing. *)
Definition joinpath (directory : Path) (component : string) : Path :=
  if decide (component = EmptyString) then directory
  else mkPath (anchored directory) (parts directory ++ [component]).

Infix "</>" := joinpath (at level 40, left associativity) : stdpp_scope.

(** [path.parent] *)
Definition parent (p : Path) : Path :=
  mkPath (anchored p) (removelast (parts p)).

Fixpoint join_with (sep : string) (l : list string) : string :=
  match l with
  | [] => EmptyString
  | [x] => x
  | x :: rest => x +:+ sep +:+ join_with sep rest
  end.

(** [str(path)] *)
Definition str (p : Path) : string :=
  if anchored p then "/" +:+ join_with "/" (parts p)
  else match parts p with
       | [] => "."
       | _ => join_with "/" (parts p)
       end.

(** ** The file system *)

(** What a path leads to.  Symbolic links are not modelled: [exists],
    [is_file] and [is_dir] follow them, so a node stands for what the path
    resolves to.  [Fifo] is a named pipe, the one kind of special file that
    [shutil] tells apart. *)
Inductive node : Type :=
  | File (content : list Byte.byte)
  | Dir
  | Fifo.

Abbreviation FS := (gmap Path node).

(** [path.exists()], [path.is_file()], [path.is_dir()] *)
Definition exists_ (p : Path) (fs : FS) : bool :=
  match fs !! p with Some _ => true | None => false end.

Definition is_file (p : Path) (fs : FS) : bool :=
  match fs !! p with Some (File _) => true | _ => false end.

Definition is_dir (p : Path) (fs : FS) : bool :=
  match fs !! p with Some Dir => true | _ => false end.

(** [stat.S_ISFIFO(os.stat(path).st_mode)], false when [stat] fails *)
Definition is_fifo (p : Path) (fs : FS) : bool :=
  match fs !! p with Some Fifo => true | _ => false end.

(** [path.unlink()] *)
Definition unlink (p : Path) : M FS unit :=
  λ fs,
    match fs !! p with
    | None => raise FileNotFoundError fs
    | Some Dir => raise IsADirectoryError fs
    | Some _ => put (delete p fs) fs
    end.

(** [os.path.basename(str(path))] *)
Definition basename (p : Path) : string :=
  match last (parts p) with
  | Some n => n
  | None => if anchored p then EmptyString else "."
  end.

(** [os.path.join(directory, component)], read as a path again: a trailing
    separator or ["."] leads to the directory itself. *)
Definition os_path_join (directory : Path) (component : string) : Path :=
  if decide (component = ".") then directory else directory </> component.

(** [open(path, "rb").read()].  [shutil.copyfile] turns named pipes away
    before it opens anything, with the error kept here. *)
Definition read_bytes (p : Path) : M FS (list Byte.byte) :=
  λ fs,
    match fs !! p with
    | None => raise FileNotFoundError fs
    | Some Dir => raise IsADirectoryError fs
    | Some Fifo => raise SpecialFileError fs
    | Some (File content) => ret content fs
    end.

(** [open(path, "wb").write(content)]: the file is created or truncated; its
    directory has to exist.  Named pipes as for [read_bytes]. *)
Definition write_bytes (p : Path) (content : list Byte.byte) : M FS unit :=
  λ fs,
    match fs !! p with
    | Some Dir => raise IsADirectoryError fs
    | Some Fifo => raise SpecialFileError fs
    | Some (File _) => put (<[p := File content]> fs) fs
    | None =>
        match fs !! parent p with
        | Some Dir => put (<[p := File content]> fs) fs
        | Some _ => raise NotADirectoryError fs
        | None => raise FileNotFoundError fs
        end
    end.

(** [shutil.copyfile(src, dst)] of the standard library: refuses to copy a
    file onto itself and to touch named pipes, then reads [src] and writes
    [dst]. *)
Definition shutil_copyfile (src dst : Path) : M FS unit :=
  same ← gets (λ fs, exists_ src fs && bool_decide (src = dst));
  if same : bool then raise SameFileError
  else
    pipe ← gets (λ fs, is_fifo src fs || is_fifo dst fs);
    if pipe : bool then raise SpecialFileError
    else
      content ← read_bytes src;
      write_bytes dst content.

(** [shutil.copy(src, dst)] of the standard library: when [dst] is a
    directory the file goes into it under the base name of [src].  The
    permission bits that [copymode] transfers are not part of [node]. *)
Definition shutil_copy (src dst : Path) : M FS unit :=
  d ← gets (is_dir dst);
  let dst := if d : bool then os_path_join dst (basename src) else dst in
  shutil_copyfile src dst.

(** ** Directory helpers of the program *)

Definition get_expected_file_in_directory (file directory : Path) : Path :=
  let expected_file := directory </> name file in
  expected_file.

Definition is_file_in_directory (file directory : Path) : M FS bool :=
  d ← gets (is_dir directory);
  if negb d then
    raise (ValueError (str directory +:+ " is not a directory."))
  else
    let expected_file := get_expected_file_in_directory file directory in
    e ← gets (exists_ expected_file);
    if e : bool then gets (is_file expected_file) else mret false.

Definition copy_file_to_directory (file directory : Path) : M FS unit :=
  present ← is_file_in_directory file directory;
  if present : bool then
    print ("File " +:+ str file +:+ " already in " +:+ str directory)
  else
    print_end ("Copy " +:+ str file +:+ " to " +:+ str directory) "... ";;
    shutil_copy file directory;;
    print "done".

Definition delete_file_in_directory (file directory : Path) : M FS unit :=
  let expected_file := get_expected_file_in_directory file directory in
  e ← gets (exists_ expected_file);
  if negb e then
    print ("File " +:+ str file +:+ " not in " +:+ str directory)
  else
    f ← gets (is_file expected_file);
    if negb f then
      raise (ValueError ("File " +:+ str file +:+ " in " +:+ str directory
                         +:+ " (i.e. " +:+ str expected_file
                         +:+ " is not a file."))
    else
      print_end ("Delete " +:+ str file +:+ " in " +:+ str directory
                 +:+ ", i.e. " +:+ str expected_file) "... ";;
      unlink expected_file;;
      print "done".

(** ** The image pager: class [CurrentImagesProvider] *)

(** The attributes of the object.  [images] is filled once, by the
    constructor, with the sorted result of [get_images_in]; no method assigns
    to it afterwards. *)
Record CurrentImagesProvider : Type := mkProvider {
  images : list Path;
  current : Z
}.

(** [len(l)] *)
Definition len {A} (l : list A) : Z := Z.of_nat (length l).

(** How Python places one bound of a slice in a sequence of length [n]:
    a negative bound counts from the end, and both are cut to [0, n]. *)
Definition slice_bound (n i : Z) : Z :=
  if i <? 0 then Z.max (i + n) 0 else Z.min i n.

(** [l[a:b]] *)
Definition py_slice {A} (l : list A) (a b : Z) : list A :=
  let lo := slice_bound (len l) a in
  let hi := slice_bound (len l) b in
  take (Z.to_nat (hi - lo)) (drop (Z.to_nat lo) l).

(** [a / b] on integers: true division.  Python rounds the quotient to the
    nearest double; the embedding keeps the exact rational. *)
Definition truediv {S} (a b : Z) : M S Q :=
  if decide (b = 0) then raise ZeroDivisionError
  else mret (inject_Z a / inject_Z b)%Q.

Definition skim (number_of_images : Z) : M CurrentImagesProvider unit :=
  self ← gets id;
  put {| images := images self;
         current := Z.max 0 (Z.min (current self + number_of_images)
                                   (len (images self) - 1)) |}.

Definition get (number_of_images : Z) : M CurrentImagesProvider (list Path) :=
  self ← gets id;
  number_of_images ←
    (if len (images self) <? number_of_images then
       print ("Only " +:+ pretty (len (images self))
              +:+ " images available, but " +:+ pretty number_of_images
              +:+ " requested.");;
       mret (len (images self))
     else mret number_of_images);
  let index := current self in
  index ←
    (if index + number_of_images >? len (images self) then
       let index := len (images self) - number_of_images in
       print ("Already at image num " +:+ pretty (current self) +:+ " of "
              +:+ pretty (len (images self)) +:+ " -- showing from image num "
              +:+ pretty index +:+ ".");;
       mret index
     else mret index);
  let images := py_slice (images self) index (index + number_of_images) in
  mret images.

Definition progress : M CurrentImagesProvider Q :=
  self ← gets id;
  truediv (100 * (current self + 1)) (len (images self)).

(** ** The part of [PhotoSelectionGUI] that drives the pager *)

(** [display_current_images], with the value of the spin box as argument.
    The widgets that [display_images] builds are not modelled; the result is
    what they are given: the images to show and the value of the progress
    bar. *)
Definition display_current_images (number_of_images : Z)
  : M CurrentImagesProvider (list Path * Q) :=
  images ← get number_of_images;
  p ← progress;
  mret (images, p).

Definition next_image (number_of_images : Z)
  : M CurrentImagesProvider (list Path * Q) :=
  skim 1;;
  display_current_images number_of_images.

Definition previous_image (number_of_images : Z)
  : M CurrentImagesProvider (list Path * Q) :=
  skim (-1);;
  display_current_images number_of_images.

(** A user who presses the two navigation buttons some number of times:
    one call of [skim] per entry. *)
Fixpoint skim_all (moves : list Z) : M CurrentImagesProvider unit :=
  match moves with
  | [] => mret tt
  | n :: rest => skim n;; skim_all rest
  end.

(** The two local variables of [get] once both corner cases are through:
    the number of images and the index the slice starts at. *)
Definition get_number (self : CurrentImagesProvider) (k : Z) : Z :=
  if len (images self) <? k then len (images self) else k.

Definition get_index (self : CurrentImagesProvider) (k : Z) : Z :=
  if current self + get_number self k >? len (images self)
  then len (images self) - get_number self k
  else current self.

(** ** Words of the specification *)

(** [clamp(x, lo, hi)] for a range that is not empty. *)
Definition clamp (x lo hi : Z) : Z :=
  if x <? lo then lo else if hi <? x then hi else x.

(** Where the window starts: at the cursor [c] when [m] images are left from
    there on, and otherwise as far to the left as it takes to have [m]. *)
Definition window_start (N c m : Z) : Z :=
  if decide (c + m ≤ N) then c else N - m.

(** The window of [k] images at cursor [c]. *)
Definition window (imgs : list Path) (c k : Z) : list Path :=
  let m := Z.min k (len imgs) in
  take (Z.to_nat m) (drop (Z.to_nat (window_start (len imgs) c m)) imgs).

(** A regular file that lies directly in [directory] and is named like
    [file]. *)
Definition same_named_file_in (fs : FS) (file directory : Path) : Prop :=
  name file ≠ EmptyString ∧
  ∃ content,
    fs !! mkPath (anchored directory) (parts directory ++ [name file])
    = Some (File content).

(** Something other than a regular file lies at the place in [directory]
    where a file named like [file] is expected. *)
Definition same_named_other_in (fs : FS) (file directory : Path) : Prop :=
  fs !! get_expected_file_in_directory file directory = Some Dir ∨
  fs !! get_expected_file_in_directory file directory = Some Fifo.

(** Every entry of the file system lies in a directory. *)
Definition well_formed (fs : FS) : Prop :=
  ∀ p n, is_Some (fs !! mkPath (anchored p) (parts p ++ [n])) →
         fs !! p = Some Dir.

(** The place in [directory] of the entry that is named like [file]: the
    components of the directory followed by the name of the file. *)
Definition same_named_path (file directory : Path) : Path :=
  mkPath (anchored directory) (parts directory ++ [name file]).

(** ** Sample data *)

Definition rel (l : list string) : Path := mkPath false l.

Definition a_jpg : Path := rel ["photos"; "a.jpg"].
Definition b_jpg : Path := rel ["photos"; "b.jpg"].
Definition c_jpg : Path := rel ["photos"; "c.jpg"].
Definition abc : list Path := [a_jpg; b_jpg; c_jpg].

Definition album : Path := rel ["album"].

(** A destination that was never created. *)
Definition missing : Path := rel ["missing"].
Definition jpeg_bytes : list Byte.byte := [Byte.xff; Byte.xd8; Byte.xff].

(** The working directory with a source folder that holds one photo and an
    empty destination folder. *)
Definition disk0 : FS :=
  {[ rel [] := Dir; rel ["photos"] := Dir; a_jpg := File jpeg_bytes;
     album := Dir ]}.

(** The destination holds a folder that is named like the photo. *)
Definition disk_folder : FS :=
  <[ rel ["album"; "a.jpg"] := Dir ]> disk0.

(** The destination holds the photo already. *)
Definition disk_copied : FS :=
  <[ rel ["album"; "a.jpg"] := File jpeg_bytes ]> disk0.


(** ** A session at the two navigation buttons *)

(** The user presses [->] ([true]) or [<-] ([false]) a number of times; each
    press comes with what the spin box shows at that moment.  One call of
    [next_image] or [previous_image] per entry. *)
Fixpoint press_all (presses : list (bool * Z))
  : M CurrentImagesProvider unit :=
  match presses with
  | [] => mret tt
  | (forward, number_of_images) :: rest =>
      (if forward : bool then next_image number_of_images
       else previous_image number_of_images);;
      press_all rest
  end.

(** ** Finding the images: [get_images_in] and the constructors *)

(** [PurePath._cparts]: what paths are compared by, the root first. *)
Definition cparts (p : Path) : list string :=
  (if anchored p then ["/"] else []) ++ parts p.

(** Comparison of paths: of their components, as Python compares lists,
    with strings compared byte by byte. *)
Definition Path_compare (p q : Path) : comparison :=
  list_compare String.compare (cparts p) (cparts q).

(** [p < q] and [p <= q] *)
Definition Path_lt (p q : Path) : Prop := Path_compare p q = Lt.
Definition Path_le (p q : Path) : Prop := Path_compare p q ≠ Gt.

Global Instance Path_le_dec : RelDecision Path_le.
Proof. intros p q. unfold Path_le. apply _. Defined.

(** [sorted(paths)] *)
Definition sorted (paths : list Path) : list Path := merge_sort Path_le paths.

(** [q] is an entry of [directory]: the directory followed by one name. *)
Definition entry_of (directory q : Path) : Prop :=
  parts q ≠ [] ∧ parent q = directory.

Global Instance entry_of_dec directory q : Decision (entry_of directory q).
Proof. unfold entry_of. apply _. Defined.

(** [directory.glob("*")]: the entries of the directory, hidden ones
    included, in the order in which the system lists them; nothing when
    [directory] is not a directory. *)
Definition glob_star (directory : Path) (fs : FS) : list Path :=
  if is_dir directory fs
  then filter (entry_of directory) (map fst (map_to_list fs))
  else [].

(** [imghdr.what(path)]: the file is opened, its first 32 bytes are read and
    handed to the tests of the module, here [tests], one after the other. *)
Definition imghdr_what (tests : list Byte.byte → option string) (p : Path)
  : M FS (option string) :=
  content ← read_bytes p;
  let h := take 32 content in
  mret (tests h).

(** A list comprehension [[x for x in l if f(x)]] whose condition runs
    code. *)
Fixpoint comprehension {S A} (f : A → M S bool) (l : list A) : M S (list A) :=
  match l with
  | [] => mret []
  | x :: rest =>
      keep ← f x;
      kept ← comprehension f rest;
      mret (if keep : bool then x :: kept else kept)
  end.

Definition get_images_in (tests : list Byte.byte → option string)
    (directory : Path) : M FS (list Path) :=
  entities ← gets (glob_star directory);
  files ← comprehension (λ x, gets (is_file x)) entities;
  images ← comprehension
              (λ x, w ← imghdr_what tests x; mret (bool_decide (w ≠ None)))
              files;
  let sorted_images := sorted images in
  mret sorted_images.

(** [CurrentImagesProvider.__init__] *)
Definition CurrentImagesProvider_init (tests : list Byte.byte → option string)
    (source_directory : Path) : M FS CurrentImagesProvider :=
  images ← get_images_in tests source_directory;
  mret {| images := images; current := 0 |}.

(** The loop at the head of [PhotoSelectionGUI.__init__]. *)
Fixpoint check_folders (folders : list Path) : M FS unit :=
  match folders with
  | [] => mret tt
  | folder :: rest =>
      e ← gets (exists_ folder);
      bad ← (if negb e then mret true
             else d ← gets (is_dir folder); mret (negb d));
      if bad : bool then
        raise (ValueError (str folder +:+ " is not a directory."))
      else check_folders rest
  end.

(** [PhotoSelectionGUI.__init__] up to the pager; what follows builds
    widgets and is not modelled. *)
Definition PhotoSelectionGUI_init (tests : list Byte.byte → option string)
    (source_directory : Path) (destination_directories : list Path)
  : M FS CurrentImagesProvider :=
  check_folders ([source_directory] ++ destination_directories);;
  CurrentImagesProvider_init tests source_directory.

(** The image that [get_images_in] is after: a regular file that is an
    entry of [directory] and is recognised by its first bytes. *)
Definition image_in (tests : list Byte.byte → option string) (fs : FS)
    (directory q : Path) : Prop :=
  is_dir directory fs = true ∧
  entry_of directory q ∧
  ∃ content, fs !! q = Some (File content) ∧ tests (take 32 content) ≠ None.

(** A test that knows JPEG files by their first three bytes. *)
Definition jpeg_only (h : list Byte.byte) : option string :=
  match h with
  | Byte.xff :: Byte.xd8 :: Byte.xff :: _ => Some "jpeg"
  | _ => None
  end.

(** Whether [imghdr] recognises what lies at [q]. *)
Definition recognised (tests : list Byte.byte → option string) (fs : FS)
    (q : Path) : bool :=
  match fs !! q with
  | Some (File content) => bool_decide (tests (take 32 content) ≠ None)
  | _ => false
  end.

(** A folder of holiday pictures: two photos, some notes and a sub-folder
    that holds one more photo. *)
Definition notes_txt : Path := rel ["photos"; "notes.txt"].
Definition holiday : FS :=
  {[ rel [] := Dir; rel ["photos"] := Dir;
     b_jpg := File jpeg_bytes; a_jpg := File jpeg_bytes;
     notes_txt := File [Byte.x68; Byte.x69];
     rel ["photos"; "more"] := Dir;
     rel ["photos"; "more"; "c.jpg"] := File jpeg_bytes;
     album := Dir ]}.

(** The list that [get_images_in] puts together, step by step. *)
Definition found_images (tests : list Byte.byte → option string)
    (directory : Path) (fs : FS) : list Path :=
  sorted (filter (λ q, recognised tests fs q = true)
            (filter (λ q, is_file q fs = true) (glob_star directory fs))).

(** ** Widgets, [FileCopyUI] and [FileAction] *)

(** A [ttk] widget as far as the program reads and writes it: its
    configuration options and its state flags. *)
Record widget : Type := mkWidget {
  options : gmap string string;
  flags : gset string
}.

(** [widget[key] = value] *)
Definition setitem (key value : string) (w : widget) : widget :=
  {| options := <[key := value]> (options w); flags := flags w |}.

(** One entry of a state specification: a flag to set, or with a leading
    ["!"] a flag to clear. *)
Definition state1 (w : widget) (spec : string) : widget :=
  match spec with
  | String c flag =>
      if Ascii.eqb c (Ascii.ascii_of_nat 33)
      then {| options := options w; flags := flags w ∖ {[flag]} |}
      else {| options := options w; flags := flags w ∪ {[spec]} |}
  | EmptyString => {| options := options w; flags := flags w ∪ {[spec]} |}
  end.

(** [widget.state(statespec)] *)
Definition state (statespec : list string) (w : widget) : widget :=
  foldl state1 w statespec.

(** A button can be pressed unless it carries the flag ["disabled"]. *)
Definition enabled (button : widget) : Prop := "disabled" ∉ flags button.

Definition set_button_active (button : widget) (should_be_active : bool)
  : widget :=
  let command := if should_be_active then "!disabled" else "disabled" in
  state [command] button.

(** The dataclass [FileCopyUI]; the widgets are held by their state. *)
Record FileCopyUI : Type := mkFileCopyUI {
  file : Path;
  destination_directory : Path;
  current_state : widget;
  copy_button : widget;
  delete_button : widget
}.

(** What the callbacks of one image and one destination work on: the disk
    and the widgets of this destination. *)
Record Desk : Type := mkDesk {
  disk : FS;
  ui : FileCopyUI
}.

(** Code that works on the disk, run at the desk. *)
Definition on_disk {A} (m : M FS A) : M Desk A :=
  λ w, let r := m (disk w) in
       Run (outcome r) {| disk := final r; ui := ui w |} (printed r).

Definition FileCopyUI_update : M Desk unit :=
  self ← gets ui;
  is_copied ← on_disk (is_file_in_directory (file self)
                                             (destination_directory self));
  let text_prefix := if is_copied : bool then "schon" else "noch nicht" in
  let label :=
    setitem "text"
      (text_prefix +:+ " in " +:+ name (destination_directory self))
      (current_state self) in
  let label :=
    setitem "background" (if is_copied then "green" else "blue") label in
  let label :=
    setitem "foreground" (if is_copied then "black" else "white") label in
  w ← gets id;
  put {| disk := disk w;
         ui := {| file := file self;
                  destination_directory := destination_directory self;
                  current_state := label;
                  copy_button :=
                    set_button_active (copy_button self) (negb is_copied);
                  delete_button :=
                    set_button_active (delete_button self) is_copied |} |}.

(** The class [FileAction]: what to do, to which file, where, and whom to
    tell afterwards. *)
Record FileAction : Type := mkFileAction {
  source : Path;
  destination : Path;
  action : Path → Path → M Desk unit;
  callbacks : list (M Desk unit)
}.

(** [for callback in callbacks: callback()] *)
Fixpoint run_callbacks (callbacks : list (M Desk unit)) : M Desk unit :=
  match callbacks with
  | [] => mret tt
  | callback :: rest => callback;; run_callbacks rest
  end.

(** [FileAction.__call__] *)
Definition FileAction_call (self : FileAction) : M Desk unit :=
  action self (source self) (destination self);;
  run_callbacks (callbacks self).

(** The two actions that [SelectableImage.__init__] makes for an image and
    a destination, each with the update of the destination's widgets as its
    callback. *)
Definition copyer (file possible_destination : Path) : FileAction :=
  {| source := file;
     destination := possible_destination;
     action := λ f d, on_disk (copy_file_to_directory f d);
     callbacks := [FileCopyUI_update] |}.

Definition deleter (file possible_destination : Path) : FileAction :=
  {| source := file;
     destination := possible_destination;
     action := λ f d, on_disk (delete_file_in_directory f d);
     callbacks := [FileCopyUI_update] |}.

(** Freshly made widgets: nothing configured, no flag set. *)
Definition fresh : widget := {| options := ∅; flags := ∅ |}.

Definition fresh_ui (file possible_destination : Path) : FileCopyUI :=
  {| file := file; destination_directory := possible_destination;
     current_state := fresh; copy_button := fresh; delete_button := fresh |}.

(** The widgets of a destination as [FileCopyUI.update] leaves them when
    the file is, or is not, in the directory. *)
Definition shown (is_copied : bool) (self : FileCopyUI) : FileCopyUI :=
  {| file := file self;
     destination_directory := destination_directory self;
     current_state :=
       setitem "foreground" (if is_copied then "black" else "white")
         (setitem "background" (if is_copied then "green" else "blue")
            (setitem "text"
               ((if is_copied then "schon" else "noch nicht")
                +:+ " in " +:+ name (destination_directory self))
               (current_state self)));
     copy_button := set_button_active (copy_button self) (negb is_copied);
     delete_button := set_button_active (delete_button self) is_copied |}.

(** A desk with the photo copied already and widgets fresh from their
    making. *)
Definition desk_copied : Desk :=
  {| disk := disk_copied; ui := fresh_ui a_jpg album |}.

(** ** Asking for the folders *)

(** The two dataclasses that carry the folders. *)
Module CommandLineArguments.
Record t : Type := mk {
  source_directory : option Path;
  target_directories : list Path
}.
End CommandLineArguments.

Module ProgramOptions.
Record t : Type := mk {
  source_directory : Path;
  destination_directory : list Path
}.
End ProgramOptions.

(** A dialog that the program puts on the screen. *)
Inductive dialog : Type :=
  | Askdirectory (title : string)
  | Showwarning (message : string)
  | Askyesno (message : string).

(** What the dialogs meet: the user, who answers the n-th folder dialog with
    [picks n] (the empty string when the dialog is cancelled) and the n-th
    yes/no dialog with [replies n], and [pathlib.Path], which reads a folder
    name as a path. *)
Record Surroundings : Type := mkSurroundings {
  pathlib_Path : string → Path;
  picks : nat → string;
  replies : nat → bool
}.

(** How far the user has been asked, and the dialogs shown so far. *)
Record Dialogs : Type := mkDialogs {
  picked : nat;
  replied : nat;
  shown_dialogs : list dialog
}.

(** [tkfd.askdirectory(title=title)] *)
Definition askdirectory (user : Surroundings) (title : string)
  : M Dialogs string :=
  s ← gets id;
  put {| picked := S (picked s); replied := replied s;
         shown_dialogs := shown_dialogs s ++ [Askdirectory title] |};;
  mret (picks user (picked s)).

(** [tkmb.showwarning(message=message)] *)
Definition showwarning (message : string) : M Dialogs unit :=
  s ← gets id;
  put {| picked := picked s; replied := replied s;
         shown_dialogs := shown_dialogs s ++ [Showwarning message] |}.

(** [tkmb.askyesno(message=message)] *)
Definition askyesno (user : Surroundings) (message : string)
  : M Dialogs bool :=
  s ← gets id;
  put {| picked := picked s; replied := S (replied s);
         shown_dialogs := shown_dialogs s ++ [Askyesno message] |};;
  mret (replies user (replied s)).

Definition ask_for_directory (user : Surroundings) (description : string)
  : M Dialogs (option Path) :=
  possible_directory ← askdirectory user description;
  if decide (String.length possible_directory = 0%nat) then mret None
  else mret (Some (pathlib_Path user possible_directory)).

(** [insist_for_directory]: the loop runs until the user picks a folder.
    [fuel] bounds the number of rounds; the result is [None] when it is
    used up with the loop still running. *)
Fixpoint insist_for_directory (user : Surroundings) (fuel : nat)
    (description explanation : string) : M Dialogs (option Path) :=
  match fuel with
  | O => mret None
  | S fuel =>
      directory ← ask_for_directory user description;
      match directory with
      | None =>
          showwarning explanation;;
          insist_for_directory user fuel description explanation
      | Some directory => mret (Some directory)
      end
  end.

(** The loop of [ask_for_missing_options] that takes further destinations,
    entered with the answer to the first yes/no dialog.  [fuel] and [None]
    as for [insist_for_directory]. *)
Fixpoint add_more (user : Surroundings) (fuel : nat) (is_more_to_add : bool)
    (target_directories : list Path) : M Dialogs (option (list Path)) :=
  if is_more_to_add then
    match fuel with
    | O => mret None
    | S fuel =>
        possible_directory ←
          ask_for_directory user
            "Ordner in den die Bilder einsortiert werden sollen auswaehlen.";
        target_directories ←
          match possible_directory with
          | None =>
              showwarning "Kein Verzeichnis gewaehlt!";;
              mret target_directories
          | Some possible_directory =>
              mret (target_directories ++ [possible_directory])%list
          end;
        is_more_to_add ←
          askyesno user "Noch ein weiteres Zielverzeichnis angeben?";
        add_more user fuel is_more_to_add target_directories
    end
  else mret (Some target_directories).

Definition ask_for_missing_options (user : Surroundings) (fuel : nat)
    (arguments : CommandLineArguments.t)
  : M Dialogs (option ProgramOptions.t) :=
  source_directory ←
    match CommandLineArguments.source_directory arguments with
    | None =>
        insist_for_directory user fuel
          "Ordner mit allen Bildern auswaehlen."
          "Quellverzeichnis muss ausgewaehlt sein."
    | Some directory => mret (Some directory)
    end;
  match source_directory with
  | None => mret None
  | Some source_directory =>
      target_directories ←
        (if decide (length (CommandLineArguments.target_directories arguments)
                    = 0%nat)
         then
           directory ←
             insist_for_directory user fuel
               "Ordner in den die Bilder einsortiert werden sollen auswaehlen."
               "Mindestens ein Zielverzeichnis muss ausgewaehlt sein.";
           match directory with
           | None => mret None
           | Some directory =>
               is_more_to_add ←
                 askyesno user "Ein weiteres Zielverzeichnis angeben?";
               add_more user fuel is_more_to_add
                 (CommandLineArguments.target_directories arguments
                  ++ [directory])%list
           end
         else mret (Some (CommandLineArguments.target_directories arguments)));
      match target_directories with
      | None => mret None
      | Some target_directories =>
          mret (Some (ProgramOptions.mk source_directory target_directories))
      end
  end.

(** A user who cancels the first folder dialog, then picks the photos, then
    the album, and wants no further destination. *)
Definition hasty : Surroundings :=
  {| pathlib_Path := λ text, rel [text];
     picks := λ n, match n with
                   | O => EmptyString
                   | 1%nat => "photos"
                   | _ => "album"
                   end;
     replies := λ _, false |}.

Definition nothing_shown : Dialogs :=
  {| picked := 0; replied := 0; shown_dialogs := [] |}.

(** * Properties *)

(** ** Running a sequence of statements *)

Section Monad.
Context {S A B : Type}.
Implicit Types (s : S) (k : A → M S B).

Lemma run_ret (a : A) k s : (mret a ≫= k) s = k a s.
Proof. unfold mbind, mret, M_bind, M_ret, bind, ret. cbn. by destruct (k a s). Qed.

Lemma run_raise e k s : (raise e ≫= k) s = raise e s.
Proof. done. Qed.

Lemma run_gets (f : S → A) k s : (gets f ≫= k) s = k (f s) s.
Proof. unfold mbind, M_bind, bind, gets. cbn. by destruct (k (f s) s). Qed.

Lemma outcome_bind (m : M S A) k s :
  outcome ((m ≫= k) s) =
  match outcome (m s) with
  | inl e => inl e
  | inr a => outcome (k a (final (m s)))
  end.
Proof. unfold mbind, M_bind, bind. cbn. by destruct (outcome (m s)). Qed.

Lemma final_bind (m : M S A) k s :
  final ((m ≫= k) s) =
  match outcome (m s) with
  | inl e => final (m s)
  | inr a => final (k a (final (m s)))
  end.
Proof. unfold mbind, M_bind, bind. cbn. by destruct (outcome (m s)). Qed.
End Monad.

Lemma outcome_print_end {S B} text e (k : unit → M S B) s :
  outcome ((print_end text e ≫= k) s) = outcome (k tt s).
Proof. by rewrite outcome_bind. Qed.

Lemma final_print_end {S B} text e (k : unit → M S B) s :
  final ((print_end text e ≫= k) s) = final (k tt s).
Proof. by rewrite final_bind. Qed.

Lemma outcome_print {S B} text (k : unit → M S B) s :
  outcome ((print text ≫= k) s) = outcome (k tt s).
Proof. apply outcome_print_end. Qed.

Lemma final_print {S B} text (k : unit → M S B) s :
  final ((print text ≫= k) s) = final (k tt s).
Proof. apply final_print_end. Qed.

(** ** Reading the file system *)

Lemma is_file_exists p (fs : FS) : is_file p fs = true → exists_ p fs = true.
Proof. unfold is_file, exists_. by destruct (fs !! p). Qed.

Lemma is_dir_exists p (fs : FS) : is_dir p fs = true → exists_ p fs = true.
Proof. unfold is_dir, exists_. by destruct (fs !! p). Qed.

Lemma is_dir_not_file p (fs : FS) : is_dir p fs = true → is_file p fs = false.
Proof. unfold is_dir, is_file. by destruct (fs !! p) as [[]|]. Qed.

Lemma exists_None p (fs : FS) : exists_ p fs = false ↔ fs !! p = None.
Proof. unfold exists_. by destruct (fs !! p). Qed.

Lemma is_file_Some p (fs : FS) :
  is_file p fs = true ↔ ∃ content, fs !! p = Some (File content).
Proof.
  unfold is_file. destruct (fs !! p) as [[]|]; split; try done; eauto.
  all: by intros [? ?].
Qed.

Lemma is_dir_Some p (fs : FS) : is_dir p fs = true ↔ fs !! p = Some Dir.
Proof. unfold is_dir. by destruct (fs !! p) as [[]|]. Qed.

(** ** What each directory helper does, case by case *)

Lemma is_file_in_directory_run file directory (fs : FS) :
  is_file_in_directory file directory fs =
  if is_dir directory fs then
    Run (inr (is_file (get_expected_file_in_directory file directory) fs))
        fs EmptyString
  else
    Run (inl (ValueError (str directory +:+ " is not a directory.")))
        fs EmptyString.
Proof.
  unfold is_file_in_directory. rewrite run_gets.
  destruct (is_dir directory fs); cbn [negb]; [|done].
  rewrite run_gets. unfold is_file, exists_.
  by destruct (fs !! _) as [[]|] eqn:E; unfold gets; rewrite ?E.
Qed.

Lemma delete_file_in_directory_outcome file directory (fs : FS) :
  outcome (delete_file_in_directory file directory fs) =
  match fs !! get_expected_file_in_directory file directory with
  | None | Some (File _) => inr tt
  | Some _ =>
      inl (ValueError
             ("File " +:+ str file +:+ " in " +:+ str directory
              +:+ " (i.e. "
              +:+ str (get_expected_file_in_directory file directory)
              +:+ " is not a file."))
  end.
Proof.
  unfold delete_file_in_directory. rewrite run_gets.
  unfold exists_, is_file.
  destruct (fs !! _) as [[]|] eqn:E; cbn [negb]; try done.
  all: rewrite run_gets, E; cbn [negb]; try done.
  rewrite outcome_print_end, outcome_bind.
  unfold unlink. by rewrite E.
Qed.

Lemma delete_file_in_directory_final file directory (fs : FS) :
  final (delete_file_in_directory file directory fs) =
  match fs !! get_expected_file_in_directory file directory with
  | Some (File _) => delete (get_expected_file_in_directory file directory) fs
  | _ => fs
  end.
Proof.
  unfold delete_file_in_directory. rewrite run_gets.
  unfold exists_, is_file.
  destruct (fs !! _) as [[]|] eqn:E; cbn [negb]; try done.
  all: rewrite run_gets, E; cbn [negb]; try done.
  rewrite final_print_end, final_bind.
  unfold unlink. by rewrite E.
Qed.

(** [shutil.copy] into a directory, when it returns: the source is a regular
    file with a proper name, and the only change is a regular file of that
    name in the directory, holding the same bytes. *)
Lemma shutil_copy_returns src dst (fs : FS) :
  is_dir dst fs = true →
  outcome (shutil_copy src dst fs) = inr tt →
  ∃ content,
    fs !! src = Some (File content) ∧
    name src ≠ EmptyString ∧
    fs !! (dst </> name src) ≠ Some Dir ∧
    final (shutil_copy src dst fs) = <[dst </> name src := File content]> fs.
Proof.
  intros Hd. unfold shutil_copy. rewrite run_gets, Hd.
  unfold shutil_copyfile. rewrite run_gets.
  destruct (_ && _); [done|].
  rewrite run_gets. destruct (_ || _); [done|].
  rewrite outcome_bind, final_bind. unfold read_bytes.
  destruct (fs !! src) as [[content| |]|] eqn:Es; try done.
  cbn [outcome final ret]. intros Hw. exists content.
  assert (fs !! os_path_join dst (basename src) ≠ Some Dir ∧
          final (write_bytes (os_path_join dst (basename src)) content fs)
          = <[os_path_join dst (basename src) := File content]> fs)
    as [Hnd Hfin].
  { revert Hw. unfold write_bytes.
    destruct (fs !! os_path_join _ _) as [[]|]; try done.
    by destruct (fs !! parent _) as [[]|]. }
  assert (os_path_join dst (basename src) ≠ dst) as Hne.
  { intros Heq. rewrite Heq in Hnd. by apply is_dir_Some in Hd. }
  assert (os_path_join dst (basename src) = dst </> name src
          ∧ name src ≠ EmptyString) as [Hj Hn].
  { revert Hne. unfold os_path_join, basename, name, joinpath.
    destruct (last (parts src)) as [n|]; cbn [default].
    - repeat case_decide; done.
    - destruct (anchored src); repeat case_decide; done. }
  rewrite <- Hj. done.
Qed.

Lemma copy_file_to_directory_outcome file directory (fs : FS) :
  outcome (copy_file_to_directory file directory fs) =
  if is_dir directory fs then
    if is_file (get_expected_file_in_directory file directory) fs then inr tt
    else outcome (shutil_copy file directory fs)
  else inl (ValueError (str directory +:+ " is not a directory.")).
Proof.
  unfold copy_file_to_directory.
  rewrite outcome_bind, is_file_in_directory_run.
  destruct (is_dir directory fs); cbn [outcome final]; [|done].
  destruct (is_file _ fs); [done|].
  rewrite outcome_print_end, outcome_bind.
  by destruct (outcome (shutil_copy file directory fs)) as [|[]].
Qed.

Lemma copy_file_to_directory_final file directory (fs : FS) :
  final (copy_file_to_directory file directory fs) =
  if is_dir directory fs then
    if is_file (get_expected_file_in_directory file directory) fs then fs
    else final (shutil_copy file directory fs)
  else fs.
Proof.
  unfold copy_file_to_directory.
  rewrite final_bind, is_file_in_directory_run.
  destruct (is_dir directory fs); cbn [outcome final]; [|done].
  destruct (is_file _ fs); [done|].
  rewrite final_print_end, final_bind.
  by destruct (outcome (shutil_copy file directory fs)) as [|[]].
Qed.

(** After a copy that returned, the file is in the directory. *)
Lemma copy_file_to_directory_present file directory (fs : FS) :
  outcome (copy_file_to_directory file directory fs) = inr tt →
  is_dir directory (final (copy_file_to_directory file directory fs)) = true ∧
  is_file (get_expected_file_in_directory file directory)
          (final (copy_file_to_directory file directory fs)) = true.
Proof.
  rewrite copy_file_to_directory_outcome, copy_file_to_directory_final.
  destruct (is_dir directory fs) eqn:Hd; [|done].
  destruct (is_file _ fs) eqn:Hf; [done|].
  intros Hc. destruct (shutil_copy_returns _ _ _ Hd Hc) as (c & _ & _ & Hnd & ->).
  unfold get_expected_file_in_directory, is_dir, is_file.
  rewrite lookup_insert_eq. split; [|done].
  rewrite lookup_insert_ne.
  - by apply is_dir_Some in Hd as ->.
  - intros Heq. rewrite Heq in Hnd. by apply is_dir_Some in Hd.
Qed.

(** In a well-formed file system nothing lies below a path that is not a
    directory. *)
Lemma expected_file_absent file directory (fs : FS) :
  well_formed fs →
  name file ≠ EmptyString →
  is_dir directory fs = false →
  exists_ (get_expected_file_in_directory file directory) fs = false.
Proof.
  intros Hwf Hn Hd. apply exists_None.
  unfold get_expected_file_in_directory, joinpath. rewrite decide_False by done.
  destruct (fs !! mkPath _ _) eqn:E; [|done].
  rewrite (proj2 (is_dir_Some directory fs)) in Hd; [done|].
  apply (Hwf directory (name file)). by rewrite E.
Qed.

Lemma same_named_file_in_is_file file directory (fs : FS) :
  is_dir directory fs = true →
  is_file (get_expected_file_in_directory file directory) fs = true
  ↔ same_named_file_in fs file directory.
Proof.
  intros Hd. unfold same_named_file_in, get_expected_file_in_directory, joinpath.
  rewrite is_file_Some. case_decide as Hn.
  - split; [|by intros [? _]].
    intros [c Hc]. apply is_dir_Some in Hd. congruence.
  - split; [by intros [c Hc]; split; [|exists c] | by intros [_ Hc]].
Qed.

(** ** Well-formed file systems *)

Lemma child_inj (p q : Path) (n m : string) :
  mkPath (anchored p) (parts p ++ [n]) = mkPath (anchored q) (parts q ++ [m]) →
  p = q ∧ n = m.
Proof.
  intros [= Ha Hp]. apply app_inj_tail in Hp as [Hp ->].
  destruct p, q; cbn in *. by subst.
Qed.

Lemma child_ne (p : Path) (n : string) :
  mkPath (anchored p) (parts p ++ [n]) ≠ p.
Proof.
  destruct p as [a l]. cbn. intros [= Hl].
  apply (f_equal length) in Hl. rewrite length_app in Hl. cbn in Hl. lia.
Qed.

(** The sample disk is well-formed. *)
Lemma disk0_well_formed : well_formed disk0.
Proof.
  intros p n [x Hx]. unfold disk0 in Hx.
  apply lookup_insert_Some in Hx as [[Hk _]|[_ Hx]].
  { injection Hk as _ Hl. by destruct (parts p). }
  apply lookup_insert_Some in Hx as [[Hk _]|[_ Hx]].
  { by apply (child_inj (rel []) p "photos" n) in Hk as [<- _]. }
  apply lookup_insert_Some in Hx as [[Hk _]|[_ Hx]].
  { by apply (child_inj (rel ["photos"]) p "a.jpg" n) in Hk as [<- _]. }
  apply lookup_singleton_Some in Hx as [Hk _].
  by apply (child_inj (rel []) p "album" n) in Hk as [<- _].
Qed.

Lemma shutil_copy_raises src dst (fs : FS) e :
  outcome (shutil_copy src dst fs) = inl e →
  final (shutil_copy src dst fs) = fs.
Proof.
  unfold shutil_copy. rewrite run_gets.
  unfold shutil_copyfile. rewrite run_gets.
  destruct (_ && _); [done|].
  rewrite run_gets. destruct (_ || _); [done|].
  rewrite outcome_bind, final_bind. unfold read_bytes.
  destruct (fs !! src) as [[content| |]|]; try done.
  cbn [outcome final ret]. unfold write_bytes.
  destruct (fs !! (if is_dir dst fs then _ else _)) as [[]|]; try done.
  by destruct (fs !! parent _) as [[]|].
Qed.

(** Both operations that write keep the file system well-formed, however
    they end. *)
Lemma delete_file_in_directory_well_formed file directory (fs : FS) :
  well_formed fs →
  well_formed (final (delete_file_in_directory file directory fs)).
Proof.
  intros Hwf. rewrite delete_file_in_directory_final.
  destruct (fs !! get_expected_file_in_directory file directory)
    as [[content| |]|] eqn:E; try done.
  intros p n [x Hx]. apply lookup_delete_Some in Hx as [Hne Hx].
  assert (fs !! p = Some Dir) as Hp by (apply (Hwf p n); by rewrite Hx).
  rewrite lookup_delete_ne; [done|]. congruence.
Qed.

Lemma copy_file_to_directory_well_formed file directory (fs : FS) :
  well_formed fs →
  well_formed (final (copy_file_to_directory file directory fs)).
Proof.
  intros Hwf. rewrite copy_file_to_directory_final.
  destruct (is_dir directory fs) eqn:Hd; [|done].
  destruct (is_file _ fs); [done|].
  destruct (outcome (shutil_copy file directory fs)) as [e|[]] eqn:Hc.
  { by rewrite (shutil_copy_raises _ _ _ _ Hc). }
  destruct (shutil_copy_returns _ _ _ Hd Hc) as (c & _ & Hn & Hnd & ->).
  apply is_dir_Some in Hd. unfold joinpath in *.
  rewrite decide_False in * by done.
  intros p n [x Hx].
  destruct (decide (mkPath (anchored directory) (parts directory ++ [name file])
                    = mkPath (anchored p) (parts p ++ [n]))) as [Heq|Hne].
  - apply child_inj in Heq as [<- _].
    rewrite lookup_insert_ne; [done|apply child_ne].
  - rewrite lookup_insert_ne in Hx by done.
    assert (fs !! p = Some Dir) as Hp by (apply (Hwf p n); by rewrite Hx).
    rewrite lookup_insert_ne; [done|]. congruence.
Qed.

(** *** Claims about [is_file_in_directory] *)

(** C5: [is_file_in_directory file directory] returns [True] exactly when
    [directory] is a directory that holds a regular file named like [file]
    (in a well-formed file system: exactly when such a file exists), and it
    raises [ValueError] exactly when [directory] is not an existing
    directory.  It has no other way to end and changes nothing. *)
Theorem is_file_in_directory_spec (fs : FS) (file directory : Path) :
  (returns (is_file_in_directory file directory fs) true
   ↔ is_dir directory fs = true ∧ same_named_file_in fs file directory) ∧
  (well_formed fs →
   returns (is_file_in_directory file directory fs) true
   ↔ same_named_file_in fs file directory) ∧
  (raises_ValueError (is_file_in_directory file directory fs)
   ↔ is_dir directory fs = false) ∧
  (is_dir directory fs = false →
   raises (is_file_in_directory file directory fs)
          (ValueError (str directory +:+ " is not a directory."))) ∧
  (is_dir directory fs = true →
   ∃ b, returns (is_file_in_directory file directory fs) b) ∧
  final (is_file_in_directory file directory fs) = fs.
Proof.
  unfold returns, raises, raises_ValueError.
  rewrite is_file_in_directory_run.
  pose proof (same_named_file_in_is_file file directory fs) as Hs.
  destruct (is_dir directory fs) eqn:Hd; cbn [outcome final].
  - specialize (Hs eq_refl). split_and!; try done.
    + split; [intros [= Hf]; split; [done|by apply Hs]|].
      intros [_ Hf]. f_equal. by apply Hs.
    + intros _. split; [intros [= Hf]; by apply Hs|].
      intros Hf. f_equal. by apply Hs.
    + split; [by intros [? ?]|done].
    + intros _. by eexists.
  - split_and!; try done.
    + split; [done|by intros [? _]].
    + intros Hwf. split; [done|]. intros [Hn [c Hc]]. exfalso.
      assert (fs !! directory = Some Dir) as Hdir.
      { apply (Hwf directory (name file)). by rewrite Hc. }
      apply is_dir_Some in Hdir. congruence.
    + split; [done|]. intros _. by eexists.
Qed.

(** C9: when [directory] is an existing directory and the expected place of
    the file in it is taken by something that is not a regular file (a
    sub-directory named like the file, for one), [is_file_in_directory]
    returns [False]: it neither returns [True] nor raises. *)
Theorem is_file_in_directory_not_regular (fs : FS) (file directory : Path) :
  is_dir directory fs = true →
  same_named_other_in fs file directory →
  returns (is_file_in_directory file directory fs) false.
Proof.
  intros Hd Ho. unfold returns. rewrite is_file_in_directory_run, Hd.
  cbn [outcome]. unfold is_file. by destruct Ho as [-> | ->].
Qed.

Lemma is_file_in_directory_not_regular_witness :
  is_dir album disk_folder = true ∧
  same_named_other_in disk_folder a_jpg album ∧
  returns (is_file_in_directory a_jpg album disk_folder) false.
Proof.
  assert (is_dir album disk_folder = true) as Hd by reflexivity.
  assert (same_named_other_in disk_folder a_jpg album) as Ho
    by (left; reflexivity).
  split; [exact Hd|]. split; [exact Ho|].
  exact (is_file_in_directory_not_regular disk_folder a_jpg album Hd Ho).
Defined.

(** *** Claims about [delete_file_in_directory] *)

(** C4: for a file with a name, [delete_file_in_directory file directory]
    looks at one place only, the entry of [directory] that is named like
    [file], and
    - returns and leaves the file system as it is when nothing lies there;
    - removes that entry, and nothing else, when it is a regular file, after
      which no file named like [file] is in the directory and
      [is_file_in_directory] returns [False] for an existing directory;
    - raises [ValueError] exactly when something that is not a regular file
      lies there, and raises nothing else. *)
Theorem delete_file_in_directory_spec (fs : FS) (file directory : Path) :
  name file ≠ EmptyString →
  (fs !! same_named_path file directory = None →
   returns (delete_file_in_directory file directory fs) tt ∧
   final (delete_file_in_directory file directory fs) = fs) ∧
  (∀ content,
     fs !! same_named_path file directory = Some (File content) →
     returns (delete_file_in_directory file directory fs) tt ∧
     final (delete_file_in_directory file directory fs)
     = delete (same_named_path file directory) fs ∧
     final (delete_file_in_directory file directory fs)
       !! same_named_path file directory = None ∧
     (∀ q, q ≠ same_named_path file directory →
           final (delete_file_in_directory file directory fs) !! q
           = fs !! q) ∧
     ¬ same_named_file_in
         (final (delete_file_in_directory file directory fs))
         file directory ∧
     (is_dir directory fs = true →
      returns (is_file_in_directory file directory
                 (final (delete_file_in_directory file directory fs)))
              false)) ∧
  (raises_ValueError (delete_file_in_directory file directory fs)
   ↔ fs !! same_named_path file directory = Some Dir ∨
     fs !! same_named_path file directory = Some Fifo) ∧
  (∀ e, raises (delete_file_in_directory file directory fs) e →
        is_ValueError e = true).
Proof.
  intros Hname.
  assert (get_expected_file_in_directory file directory
          = same_named_path file directory) as Hplace.
  { unfold get_expected_file_in_directory, joinpath, same_named_path.
    by rewrite decide_False. }
  unfold returns, raises, raises_ValueError.
  rewrite delete_file_in_directory_outcome, delete_file_in_directory_final.
  rewrite Hplace.
  destruct (fs !! same_named_path file directory) as [[content| |]|] eqn:E.
  - split_and!; [done| | |by intros e [=]].
    + intros c _. split_and!; [done|done| | | |].
      * apply lookup_delete_eq.
      * intros q Hq. by apply lookup_delete_ne.
      * intros [_ [c' Hc']]. fold (same_named_path file directory) in Hc'.
        by rewrite lookup_delete_eq in Hc'.
      * intros Hd. rewrite is_file_in_directory_run.
        assert (is_dir directory (delete (same_named_path file directory) fs)
                = true) as ->.
        { apply is_dir_Some. apply is_dir_Some in Hd.
          rewrite lookup_delete_ne; [done|congruence]. }
        cbn [outcome]. unfold is_file.
        by rewrite Hplace, lookup_delete_eq.
    + split; [by intros [? ?]|by intros [?|?]].
  - split_and!; [done|done| |by intros e [= <-]].
    split; [by left|]. intros _. by eexists.
  - split_and!; [done|done| |by intros e [= <-]].
    split; [by right|]. intros _. by eexists.
  - split_and!; [done|done| |by intros e [=]].
    split; [by intros [? ?]|by intros [?|?]].
Qed.

Lemma delete_file_in_directory_spec_witness :
  name a_jpg ≠ EmptyString ∧
  returns (delete_file_in_directory a_jpg album disk_copied) tt ∧
  final (delete_file_in_directory a_jpg album disk_copied)
    !! rel ["album"; "a.jpg"] = None ∧
  final (delete_file_in_directory a_jpg album disk_copied) !! a_jpg
  = disk_copied !! a_jpg.
Proof.
  assert (name a_jpg ≠ EmptyString) as Hname by done.
  assert (disk_copied !! same_named_path a_jpg album
          = Some (File jpeg_bytes)) as Hthere by reflexivity.
  destruct (delete_file_in_directory_spec disk_copied a_jpg album Hname)
    as (_ & Hfile & _).
  destruct (Hfile jpeg_bytes Hthere) as (Hr & _ & Hgone & Hframe & _).
  split; [exact Hname|]. split; [exact Hr|]. split; [exact Hgone|].
  apply Hframe. done.
Defined.

(** C10: [delete_file_in_directory] does not look at [directory] itself.
    When [directory] is not an existing directory, so that nothing lies at
    the expected place (as is the case in every well-formed file system for a
    file with a name), it returns and changes nothing, whereas
    [is_file_in_directory] and [copy_file_to_directory] raise [ValueError] for
    the same arguments. *)
Theorem delete_file_in_directory_unchecked (fs : FS) (file directory : Path) :
  is_dir directory fs = false →
  (well_formed fs ∧ name file ≠ EmptyString) ∨
  exists_ (get_expected_file_in_directory file directory) fs = false →
  exists_ (get_expected_file_in_directory file directory) fs = false ∧
  returns (delete_file_in_directory file directory fs) tt ∧
  final (delete_file_in_directory file directory fs) = fs ∧
  raises (is_file_in_directory file directory fs)
         (ValueError (str directory +:+ " is not a directory.")) ∧
  raises (copy_file_to_directory file directory fs)
         (ValueError (str directory +:+ " is not a directory.")).
Proof.
  intros Hd Habsent.
  assert (exists_ (get_expected_file_in_directory file directory) fs = false)
    as He.
  { destruct Habsent as [[Hwf Hn]|]; [|done].
    by apply expected_file_absent. }
  split; [done|]. apply exists_None in He. unfold returns, raises.
  rewrite delete_file_in_directory_outcome, delete_file_in_directory_final.
  rewrite copy_file_to_directory_outcome, is_file_in_directory_run.
  by rewrite He, Hd.
Qed.

Lemma delete_file_in_directory_unchecked_witness :
  is_dir missing disk0 = false ∧
  exists_ (get_expected_file_in_directory a_jpg missing) disk0 = false ∧
  returns (delete_file_in_directory a_jpg missing disk0) tt ∧
  final (delete_file_in_directory a_jpg missing disk0) = disk0 ∧
  raises_ValueError (is_file_in_directory a_jpg missing disk0) ∧
  raises_ValueError (copy_file_to_directory a_jpg missing disk0).
Proof.
  assert (is_dir missing disk0 = false) as Hd by reflexivity.
  assert (exists_ (get_expected_file_in_directory a_jpg missing) disk0 = false)
    as He by reflexivity.
  destruct (delete_file_in_directory_unchecked disk0 a_jpg missing Hd
              (or_intror He)) as (_ & Hr & Hf & Hi & Hc).
  split; [exact Hd|]. split; [exact He|]. split; [exact Hr|].
  split; [exact Hf|]. split; eexists; [exact Hi|exact Hc].
Defined.

(** *** Claims about [copy_file_to_directory] *)

(** C6: when [directory] is an existing directory and
    [copy_file_to_directory file directory] returns, a following
    [is_file_in_directory file directory] returns [True]. *)
Theorem copy_then_is_file_in_directory (fs : FS) (file directory : Path) :
  is_dir directory fs = true →
  returns (copy_file_to_directory file directory fs) tt →
  returns (is_file_in_directory file directory
             (final (copy_file_to_directory file directory fs))) true.
Proof.
  intros _ Hc. apply copy_file_to_directory_present in Hc as [Hd Hf].
  unfold returns. by rewrite is_file_in_directory_run, Hd, Hf.
Qed.

Lemma copy_then_is_file_in_directory_witness :
  is_dir album disk0 = true ∧
  returns (copy_file_to_directory a_jpg album disk0) tt ∧
  returns (is_file_in_directory a_jpg album
             (final (copy_file_to_directory a_jpg album disk0))) true.
Proof.
  assert (is_dir album disk0 = true) as Hd by reflexivity.
  assert (returns (copy_file_to_directory a_jpg album disk0) tt) as Hc
    by reflexivity.
  split; [exact Hd|]. split; [exact Hc|].
  exact (copy_then_is_file_in_directory disk0 a_jpg album Hd Hc).
Defined.


(** ** Slices *)

Lemma len_nonneg {A} (l : list A) : 0 ≤ len l.
Proof. unfold len. lia. Qed.

Lemma py_slice_inside {A} (l : list A) (a b : Z) :
  0 ≤ a → a ≤ b → b ≤ len l →
  py_slice l a b = take (Z.to_nat (b - a)) (drop (Z.to_nat a) l).
Proof.
  intros Ha Hab Hb. unfold py_slice, slice_bound.
  rewrite !(proj2 (Z.ltb_ge _ 0)) by lia.
  by rewrite !Z.min_l by lia.
Qed.

Lemma length_slice {A} (l : list A) (a m : nat) :
  (a + m ≤ length l)%nat → length (take m (drop a l)) = m.
Proof. intros H. rewrite length_take, length_drop. lia. Qed.

Lemma lookup_slice {A} (l : list A) (a m i : nat) :
  (i < m)%nat → take m (drop a l) !! i = l !! (a + i)%nat.
Proof. intros H. by rewrite lookup_take_lt, lookup_drop. Qed.

Section Sorted.
Context {A : Type} (R : relation A).

Lemma Sorted_drop l n : Sorted R l → Sorted R (drop n l).
Proof.
  revert l. induction n as [|n IH]; intros [|x l] Hs; cbn; try done.
  apply IH. by apply Sorted_inv in Hs as [? _].
Qed.

Lemma HdRel_take x l n : HdRel R x l → HdRel R x (take n l).
Proof. intros [|y l' Hxy]; destruct n; cbn; by constructor. Qed.

Lemma Sorted_take l n : Sorted R l → Sorted R (take n l).
Proof.
  revert n. induction l as [|x l IH]; intros [|n] Hs; cbn; try constructor.
  - apply IH. by apply Sorted_inv in Hs as [? _].
  - apply HdRel_take. by apply Sorted_inv in Hs as [_ ?].
Qed.

Lemma Sorted_slice l a m : Sorted R l → Sorted R (take m (drop a l)).
Proof. intros Hs. by apply Sorted_take, Sorted_drop. Qed.
End Sorted.

(** ** The pager *)

Lemma get_outcome (self : CurrentImagesProvider) (k : Z) :
  outcome (get k self) =
  inr (py_slice (images self) (get_index self k)
                (get_index self k + get_number self k)).
Proof.
  unfold get, get_index, get_number. rewrite run_gets. unfold id.
  destruct (len (images self) <? k).
  - rewrite outcome_bind, outcome_print, final_print. cbn [outcome final ret mret M_ret].
    destruct (_ >? _).
    + by rewrite outcome_bind, outcome_print.
    + by rewrite run_ret.
  - rewrite run_ret. destruct (_ >? _).
    + by rewrite outcome_bind, outcome_print.
    + by rewrite run_ret.
Qed.

Lemma get_final (self : CurrentImagesProvider) (k : Z) :
  final (get k self) = self.
Proof.
  unfold get. rewrite run_gets. unfold id.
  destruct (len (images self) <? k).
  - rewrite final_bind, outcome_print, final_print. cbn [outcome final ret mret M_ret].
    destruct (_ >? _).
    + by rewrite final_bind, outcome_print, final_print.
    + by rewrite run_ret.
  - rewrite run_ret. destruct (_ >? _).
    + by rewrite final_bind, outcome_print, final_print.
    + by rewrite run_ret.
Qed.

(** C8: [get] reads the pager and writes nothing: whatever the cursor and
    the requested number are, it returns, and the cursor and the image list
    are afterwards what they were before, also over any number of calls. *)
Theorem get_read_only (self : CurrentImagesProvider) (k : Z) :
  (∃ w, returns (get k self) w) ∧
  final (get k self) = self ∧
  current (final (get k self)) = current self ∧
  images (final (get k self)) = images self ∧
  (∀ k', get k' (final (get k self)) = get k' self).
Proof.
  unfold returns. rewrite get_outcome, get_final.
  split_and!; try done. by eexists.
Qed.

(** C1: for a cursor [c] within [0, max(0, N-1)] and a requested number
    [k >= 0], [get k] returns exactly [min(k, N)] paths: the slice of the
    image list that starts at [c] when [c + min(k, N) <= N] and at
    [N - min(k, N)] otherwise.  The slice lies within the list (its last index
    is at most [N-1]), keeps the order of the list, and is the whole list
    when [k > N].  For [a.jpg, b.jpg, c.jpg] and cursor 2, [get 3] returns
    all three. *)
Theorem get_window (imgs : list Path) (c k : Z) :
  0 ≤ c ≤ Z.max 0 (len imgs - 1) →
  0 ≤ k →
  returns (get k (mkProvider imgs c)) (window imgs c k) ∧
  len (window imgs c k) = Z.min k (len imgs) ∧
  0 ≤ window_start (len imgs) c (Z.min k (len imgs)) ∧
  window_start (len imgs) c (Z.min k (len imgs)) + Z.min k (len imgs) - 1
  ≤ len imgs - 1 ∧
  (∀ i, 0 ≤ i < Z.min k (len imgs) →
        window imgs c k !! Z.to_nat i
        = imgs !! Z.to_nat (window_start (len imgs) c (Z.min k (len imgs)) + i)) ∧
  (len imgs < k → window imgs c k = imgs) ∧
  (∀ R : relation Path, Sorted R imgs → Sorted R (window imgs c k)) ∧
  returns (get 3 (mkProvider abc 2)) abc.
Proof.
  intros Hc Hk. pose proof (len_nonneg imgs) as HN0.
  assert (0 ≤ window_start (len imgs) c (Z.min k (len imgs)) ∧
          window_start (len imgs) c (Z.min k (len imgs)) + Z.min k (len imgs)
          ≤ len imgs) as [Hlo Hhi].
  { unfold window_start. case_decide; lia. }
  split_and!.
  - unfold returns. rewrite get_outcome. f_equal.
    unfold get_index, get_number. cbn [images current].
    assert ((if len imgs <? k then len imgs else k) = Z.min k (len imgs))
      as -> by (destruct (Z.ltb_spec (len imgs) k); lia).
    assert ((if c + Z.min k (len imgs) >? len imgs
             then len imgs - Z.min k (len imgs) else c)
            = window_start (len imgs) c (Z.min k (len imgs))) as ->.
    { unfold window_start. rewrite Z.gtb_ltb.
      destruct (Z.ltb_spec (len imgs) (c + Z.min k (len imgs)));
        case_decide; lia. }
    rewrite py_slice_inside by lia. unfold window. do 2 f_equal. lia.
  - unfold window, len. rewrite length_slice; unfold len in *; lia.
  - done.
  - lia.
  - intros i Hi. unfold window. rewrite lookup_slice by lia. f_equal. lia.
  - intros HN. unfold window. rewrite Z.min_r by lia.
    assert (window_start (len imgs) c (len imgs) = 0) as ->
      by (unfold window_start; case_decide; lia).
    cbn [Z.to_nat drop]. unfold len. rewrite Nat2Z.id. apply firstn_all.
  - intros R Hs. by apply Sorted_slice.
  - reflexivity.
Qed.

Lemma get_window_witness :
  returns (get 3 (mkProvider abc 2)) (window abc 2 3) ∧
  window abc 2 3 = abc ∧
  window_start 3 2 3 = 0.
Proof.
  assert (0 ≤ 2 ≤ Z.max 0 (len abc - 1)) as Hc by (by split; vm_compute).
  assert (0 ≤ 3) as Hk by lia.
  destruct (get_window abc 2 3 Hc Hk) as (Hr & _).
  split; [exact Hr|]. split; reflexivity.
Defined.

Lemma skim_run (n : Z) (self : CurrentImagesProvider) :
  skim n self =
  Run (inr tt)
      (mkProvider (images self)
         (Z.max 0 (Z.min (current self + n) (len (images self) - 1))))
      EmptyString.
Proof. unfold skim. by rewrite run_gets. Qed.

(** C3: [skim n] sets the cursor to [max(0, min(c + n, N - 1))], for every
    cursor [c] and every integer [n].  For a list that is not empty this is
    [clamp(c + n, 0, N-1)], a position within [0, N-1].  For the empty list
    the cursor becomes 0; a pager that is at 0 there, as it is from the
    start, stays as it is.  The image list is never touched, and [skim] does
    not raise. *)
Theorem skim_clamps (imgs : list Path) (c n : Z) :
  returns (skim n (mkProvider imgs c)) tt ∧
  images (final (skim n (mkProvider imgs c))) = imgs ∧
  current (final (skim n (mkProvider imgs c)))
  = Z.max 0 (Z.min (c + n) (len imgs - 1)) ∧
  (0 < len imgs →
   current (final (skim n (mkProvider imgs c)))
   = clamp (c + n) 0 (len imgs - 1) ∧
   0 ≤ current (final (skim n (mkProvider imgs c))) ≤ len imgs - 1) ∧
  (len imgs = 0 →
   current (final (skim n (mkProvider imgs c))) = 0 ∧
   (c = 0 → final (skim n (mkProvider imgs c)) = mkProvider imgs c)).
Proof.
  unfold returns. rewrite skim_run.
  cbn [outcome final images current].
  split_and!; try done.
  - intros HN. unfold clamp.
    destruct (Z.ltb_spec (c + n) 0), (Z.ltb_spec (len imgs - 1) (c + n)); lia.
  - intros HN. split; [lia|]. intros ->. f_equal. lia.
Qed.

(** The cursor stays in range over any sequence of moves. *)
Lemma skim_all_in_range (moves : list Z) (self : CurrentImagesProvider) :
  0 ≤ current self ≤ Z.max 0 (len (images self) - 1) →
  returns (skim_all moves self) tt ∧
  images (final (skim_all moves self)) = images self ∧
  0 ≤ current (final (skim_all moves self))
    ≤ Z.max 0 (len (images self) - 1).
Proof.
  revert self. induction moves as [|n moves IH]; intros self Hc.
  - done.
  - cbn [skim_all]. unfold returns.
    rewrite outcome_bind, final_bind, skim_run. cbn [outcome final].
    destruct (IH (mkProvider (images self)
                    (Z.max 0 (Z.min (current self + n)
                                    (len (images self) - 1)))))
      as (Hr & Hi & Hc'); [cbn [images current]; lia|].
    done.
Qed.

Lemma progress_run (self : CurrentImagesProvider) :
  progress self = truediv (100 * (current self + 1)) (len (images self)) self.
Proof. unfold progress. by rewrite run_gets. Qed.

(** With the cursor in range the progress is a percentage above 0. *)
Lemma progress_in_range (imgs : list Path) (c : Z) :
  0 ≤ c ≤ len imgs - 1 →
  ∃ q, returns (progress (mkProvider imgs c)) q ∧ (0 < q ∧ q <= 100)%Q.
Proof.
  intros Hc. unfold returns. rewrite progress_run. unfold truediv.
  cbn [images current]. rewrite decide_False by lia.
  eexists. split; [done|].
  assert (0 < inject_Z (len imgs))%Q as HN
    by (rewrite <- (Zlt_Qlt 0); lia).
  split.
  - apply Qlt_shift_div_l; [done|]. rewrite Qmult_0_l.
    rewrite <- (Zlt_Qlt 0). lia.
  - apply Qle_shift_div_r; [done|].
    change 100%Q with (inject_Z 100). rewrite <- inject_Z_mult.
    rewrite <- Zle_Qle. lia.
Qed.

(** C2: on a pager with images, [progress] returns the quotient of
    [100 * (current + 1)] by [len(images)].  On an empty pager the division
    itself raises [ZeroDivisionError]: no branch of [progress] deals with the
    empty list, and [display_current_images], which the program runs once at
    start-up, ends with the same exception although [get] before it coped
    with the empty list. *)
Theorem progress_outcome :
  (∀ imgs c, imgs ≠ [] →
     ∃ q, returns (progress (mkProvider imgs c)) q ∧
          (q == inject_Z (100 * (c + 1)) / inject_Z (len imgs))%Q ∧
          (q * inject_Z (len imgs) == inject_Z (100 * (c + 1)))%Q) ∧
  (∀ c, raises (progress (mkProvider [] c)) ZeroDivisionError) ∧
  (∀ k, returns (get k (mkProvider [] 0)) []) ∧
  (∀ k, raises (display_current_images k (mkProvider [] 0))
               ZeroDivisionError).
Proof.
  unfold returns, raises. split_and!.
  - intros imgs c Hne. rewrite progress_run. unfold truediv.
    cbn [images current].
    assert (len imgs ≠ 0) as HN.
    { destruct imgs; [done|]. unfold len. cbn [length]. lia. }
    rewrite decide_False by done.
    eexists. split_and!; [done|reflexivity|].
    rewrite Qmult_comm. apply Qmult_div_r.
    change 0%Q with (inject_Z 0). by rewrite inject_Z_injective.
  - done.
  - intros k. rewrite get_outcome. f_equal. unfold py_slice.
    cbn [images]. by rewrite drop_nil, take_nil.
  - intros k. unfold display_current_images.
    rewrite outcome_bind, get_outcome, get_final. done.
Qed.

(** ** The program at work *)

(** The first scenario of the specification: one step forward from the
    first of three images, two images shown. *)
Example next_image_scenario :
  outcome (next_image 2 (mkProvider abc 0)) = inr ([b_jpg; c_jpg], 200 # 3) ∧
  current (final (next_image 2 (mkProvider abc 0))) = 1.
Proof. split; reflexivity. Qed.

(** A negative number of images is passed on to the slice as it is. *)
Example get_negative :
  outcome (get (-1) (mkProvider abc 0)) = inr [a_jpg; b_jpg].
Proof. reflexivity. Qed.

Example get_prints :
  printed (get 5 (mkProvider abc 1)) =
  "Only 3 images available, but 5 requested." +:+ newline +:+
  "Already at image num 1 of 3 -- showing from image num 0." +:+ newline.
Proof. reflexivity. Qed.

Example copy_prints :
  printed (copy_file_to_directory a_jpg album disk0) =
  "Copy photos/a.jpg to album... done" +:+ newline.
Proof. reflexivity. Qed.

Example copy_copies :
  final (copy_file_to_directory a_jpg album disk0) !! rel ["album"; "a.jpg"]
  = Some (File jpeg_bytes).
Proof. reflexivity. Qed.

Example copy_again :
  outcome (copy_file_to_directory a_jpg album disk_copied) = inr tt ∧
  printed (copy_file_to_directory a_jpg album disk_copied) =
  "File photos/a.jpg already in album" +:+ newline.
Proof. split; reflexivity. Qed.

(** A folder in the way makes the copy fail, each time it is tried. *)
Example copy_onto_folder :
  outcome (copy_file_to_directory a_jpg album disk_folder)
  = inl IsADirectoryError.
Proof. reflexivity. Qed.

Example delete_deletes :
  final (delete_file_in_directory a_jpg album disk_copied)
    !! rel ["album"; "a.jpg"] = None ∧
  final (delete_file_in_directory a_jpg album disk_copied) !! a_jpg
  = Some (File jpeg_bytes).
Proof. split; reflexivity. Qed.

Example delete_folder :
  outcome (delete_file_in_directory a_jpg album disk_folder) =
  inl (ValueError "File photos/a.jpg in album (i.e. album/a.jpg is not a file.").
Proof. reflexivity. Qed.

(** * Further properties *)

(** ** More on the directory helpers *)

(** The two ways in which [copy_file_to_directory] returns. *)
Lemma copy_file_to_directory_returns file directory (fs : FS) :
  outcome (copy_file_to_directory file directory fs) = inr tt →
  is_dir directory fs = true ∧
  ((is_file (get_expected_file_in_directory file directory) fs = true ∧
    final (copy_file_to_directory file directory fs) = fs) ∨
   (is_file (get_expected_file_in_directory file directory) fs = false ∧
    ∃ content,
      fs !! file = Some (File content) ∧
      fs !! get_expected_file_in_directory file directory ≠ Some Dir ∧
      final (copy_file_to_directory file directory fs)
      = <[get_expected_file_in_directory file directory := File content]> fs)).
Proof.
  rewrite copy_file_to_directory_outcome, copy_file_to_directory_final.
  destruct (is_dir directory fs) eqn:Hd; [|done].
  destruct (is_file _ fs) eqn:Hf; [by intros _; split; [|left]|].
  intros Hc. split; [done|]. right. split; [done|].
  destruct (shutil_copy_returns _ _ _ Hd Hc) as (c & Hs & _ & Hnd & Hfin).
  exists c. by rewrite Hfin.
Qed.

Lemma copy_file_to_directory_raises file directory (fs : FS) e :
  outcome (copy_file_to_directory file directory fs) = inl e →
  final (copy_file_to_directory file directory fs) = fs.
Proof.
  rewrite copy_file_to_directory_outcome, copy_file_to_directory_final.
  destruct (is_dir directory fs); [|done].
  destruct (is_file _ fs); [done|]. apply shutil_copy_raises.
Qed.

(** [delete_file_in_directory] is idempotent: two calls in a row end as one
    call does, and after a call that returned a second one returns and
    changes nothing. *)
Theorem delete_file_in_directory_idempotent (fs : FS) (file directory : Path) :
  outcome ((delete_file_in_directory file directory;;
            delete_file_in_directory file directory) fs)
  = outcome (delete_file_in_directory file directory fs) ∧
  final ((delete_file_in_directory file directory;;
          delete_file_in_directory file directory) fs)
  = final (delete_file_in_directory file directory fs) ∧
  (returns (delete_file_in_directory file directory fs) tt →
   returns (delete_file_in_directory file directory
              (final (delete_file_in_directory file directory fs))) tt ∧
   final (delete_file_in_directory file directory
            (final (delete_file_in_directory file directory fs)))
   = final (delete_file_in_directory file directory fs)).
Proof.
  unfold returns. rewrite outcome_bind, final_bind.
  rewrite !delete_file_in_directory_outcome, !delete_file_in_directory_final.
  destruct (fs !! get_expected_file_in_directory file directory)
    as [[content| |]|] eqn:E; rewrite ?lookup_delete_eq, ?E; done.
Qed.

(** Copying a file that was not in the directory and deleting it again
    gives back the file system one started with. *)
Theorem copy_then_delete_restores (fs : FS) (file directory : Path) :
  exists_ (get_expected_file_in_directory file directory) fs = false →
  returns (copy_file_to_directory file directory fs) tt →
  returns (delete_file_in_directory file directory
             (final (copy_file_to_directory file directory fs))) tt ∧
  final (delete_file_in_directory file directory
           (final (copy_file_to_directory file directory fs))) = fs.
Proof.
  intros He Hc. apply exists_None in He. unfold returns.
  apply copy_file_to_directory_returns in Hc
    as [_ [[Hf _]|[_ (c & _ & _ & ->)]]].
  { apply is_file_Some in Hf as [c Hc]. congruence. }
  rewrite delete_file_in_directory_outcome, delete_file_in_directory_final.
  rewrite lookup_insert_eq. split; [done|].
  by rewrite delete_insert_eq, delete_id.
Qed.

Lemma copy_then_delete_restores_witness :
  final (delete_file_in_directory a_jpg album
           (final (copy_file_to_directory a_jpg album disk0))) = disk0.
Proof.
  assert (exists_ (get_expected_file_in_directory a_jpg album) disk0 = false)
    as He by reflexivity.
  assert (returns (copy_file_to_directory a_jpg album disk0) tt) as Hc
    by reflexivity.
  exact (proj2 (copy_then_delete_restores disk0 a_jpg album He Hc)).
Defined.

(** What [copy_file_to_directory] does to the file system, however it ends:
    nothing outside the expected place changes; a file that is there already
    keeps its bytes; and a copy that returns puts the bytes of the source
    there. *)
Theorem copy_file_to_directory_effect (fs : FS) (file directory : Path) :
  (∀ q, q ≠ get_expected_file_in_directory file directory →
        final (copy_file_to_directory file directory fs) !! q = fs !! q) ∧
  (is_file (get_expected_file_in_directory file directory) fs = true →
   final (copy_file_to_directory file directory fs)
     !! get_expected_file_in_directory file directory
   = fs !! get_expected_file_in_directory file directory) ∧
  (returns (copy_file_to_directory file directory fs) tt →
   is_file (get_expected_file_in_directory file directory) fs = false →
   ∃ content,
     fs !! file = Some (File content) ∧
     final (copy_file_to_directory file directory fs)
       !! get_expected_file_in_directory file directory
     = Some (File content)).
Proof.
  unfold returns.
  destruct (outcome (copy_file_to_directory file directory fs))
    as [e|[]] eqn:Hc.
  { rewrite (copy_file_to_directory_raises _ _ _ _ Hc). by split_and!. }
  destruct (copy_file_to_directory_returns _ _ _ Hc)
    as [_ [[Hf ->]|[Hf (c & Hs & _ & ->)]]].
  - split_and!; try done. congruence.
  - split_and!.
    + intros q Hq. by rewrite lookup_insert_ne.
    + congruence.
    + intros _ _. exists c. by rewrite lookup_insert_eq.
Qed.

(** What [delete_file_in_directory] does to the file system, however it
    ends: nothing outside the expected place changes, no directory
    disappears, and nothing appears. *)
Theorem delete_file_in_directory_effect (fs : FS) (file directory : Path) :
  (∀ q, q ≠ get_expected_file_in_directory file directory →
        final (delete_file_in_directory file directory fs) !! q = fs !! q) ∧
  (∀ q, fs !! q = Some Dir →
        final (delete_file_in_directory file directory fs) !! q = Some Dir) ∧
  (∀ q, is_Some (final (delete_file_in_directory file directory fs) !! q) →
        is_Some (fs !! q)).
Proof.
  rewrite delete_file_in_directory_final.
  destruct (fs !! get_expected_file_in_directory file directory)
    as [[content| |]|] eqn:E; split_and!; try done.
  - intros q Hq. by rewrite lookup_delete_ne.
  - intros q Hq. rewrite lookup_delete_ne; [done|congruence].
  - intros q [x Hx]. apply lookup_delete_Some in Hx as [_ Hx]. by eexists.
Qed.

(** A destination that is the folder of the file itself: copying does
    nothing, and deleting removes the original. *)
Theorem delete_in_own_folder (fs : FS) (file directory : Path) :
  get_expected_file_in_directory file directory = file →
  is_dir directory fs = true →
  is_file file fs = true →
  returns (copy_file_to_directory file directory fs) tt ∧
  final (copy_file_to_directory file directory fs) = fs ∧
  returns (delete_file_in_directory file directory fs) tt ∧
  exists_ file (final (delete_file_in_directory file directory fs)) = false.
Proof.
  intros He Hd Hf. unfold returns.
  rewrite copy_file_to_directory_outcome, copy_file_to_directory_final.
  rewrite delete_file_in_directory_outcome, delete_file_in_directory_final.
  rewrite He, Hd, Hf. apply is_file_Some in Hf as [c Hc]. rewrite Hc.
  split_and!; try done. apply exists_None, lookup_delete_eq.
Qed.

Lemma delete_in_own_folder_witness :
  exists_ a_jpg disk0 = true ∧
  exists_ a_jpg
    (final (delete_file_in_directory a_jpg (rel ["photos"]) disk0)) = false.
Proof.
  assert (get_expected_file_in_directory a_jpg (rel ["photos"]) = a_jpg)
    as He by reflexivity.
  assert (is_dir (rel ["photos"]) disk0 = true) as Hd by reflexivity.
  assert (is_file a_jpg disk0 = true) as Hf by reflexivity.
  split; [reflexivity|].
  exact (proj2 (proj2 (proj2
    (delete_in_own_folder disk0 a_jpg (rel ["photos"]) He Hd Hf)))).
Defined.

(** ** More on the pager *)

Lemma get_returns_window (imgs : list Path) (c k : Z) :
  0 ≤ c ≤ Z.max 0 (len imgs - 1) →
  0 ≤ k →
  outcome (get k (mkProvider imgs c)) = inr (window imgs c k).
Proof.
  intros Hc Hk. pose proof (len_nonneg imgs) as HN0.
  rewrite get_outcome. f_equal.
  unfold get_index, get_number, window, window_start. cbn [images current].
  destruct (Z.ltb_spec (len imgs) k).
  - rewrite Z.min_r by lia. rewrite Z.gtb_ltb.
    destruct (Z.ltb_spec (len imgs) (c + len imgs)); case_decide; try lia.
    all: rewrite py_slice_inside by lia; do 2 f_equal; lia.
  - rewrite Z.min_l by lia. rewrite Z.gtb_ltb.
    destruct (Z.ltb_spec (len imgs) (c + k)); case_decide; try lia.
    all: rewrite py_slice_inside by lia; do 2 f_equal; lia.
Qed.

(** With the cursor on an image and at least one image asked for, the image
    at the cursor is among those that [get] returns, shifted window or
    not. *)
Theorem get_shows_current (imgs : list Path) (c k : Z) :
  0 ≤ c ≤ len imgs - 1 →
  1 ≤ k →
  ∃ w x,
    returns (get k (mkProvider imgs c)) w ∧
    imgs !! Z.to_nat c = Some x ∧
    x ∈ w.
Proof.
  intros Hc Hk. exists (window imgs c k).
  destruct (lookup_lt_is_Some_2 imgs (Z.to_nat c)) as [x Hx].
  { unfold len in Hc. lia. }
  exists x. split_and!; [|done|].
  - apply get_returns_window; lia.
  - apply list_elem_of_lookup.
    exists (Z.to_nat (c - window_start (len imgs) c (Z.min k (len imgs)))).
    unfold window, window_start. case_decide.
    + rewrite lookup_slice by lia. rewrite <- Hx. f_equal. lia.
    + rewrite lookup_slice by lia. rewrite <- Hx. f_equal. lia.
Qed.

Lemma get_shows_current_witness :
  ∃ w x, returns (get 2 (mkProvider abc 2)) w ∧
         abc !! Z.to_nat 2 = Some x ∧ x ∈ w.
Proof.
  assert (0 ≤ 2 ≤ len abc - 1) as Hc by (by split; vm_compute).
  assert (1 ≤ 2) as Hk by lia.
  exact (get_shows_current abc 2 2 Hc Hk).
Defined.

(** Moving and moving back.  A move that stays within the list is undone
    by the opposite move.  One step forward and one back is the identity
    except on the last of several images, where the step forward is lost;
    one step back and one forward is the identity except on the first of
    several images. *)
Theorem skim_there_and_back (imgs : list Path) (c : Z) :
  0 ≤ c ≤ len imgs - 1 →
  (∀ n, 0 ≤ c + n ≤ len imgs - 1 →
        final ((skim n;; skim (- n)) (mkProvider imgs c))
        = mkProvider imgs c) ∧
  (final ((skim 1;; skim (-1)) (mkProvider imgs c)) = mkProvider imgs c
   ↔ c < len imgs - 1 ∨ c = 0) ∧
  (final ((skim (-1);; skim 1) (mkProvider imgs c)) = mkProvider imgs c
   ↔ 0 < c ∨ len imgs = 1).
Proof.
  intros Hc.
  assert (∀ n m, final ((skim n;; skim m) (mkProvider imgs c))
                 = mkProvider imgs
                     (Z.max 0 (Z.min (Z.max 0 (Z.min (c + n) (len imgs - 1)) + m)
                                     (len imgs - 1)))) as Hrun.
  { intros n m. by rewrite final_bind, !skim_run. }
  split_and!.
  - intros n Hn. rewrite Hrun. f_equal. lia.
  - rewrite Hrun. split.
    + intros [= Heq]. lia.
    + intros H. f_equal. lia.
  - rewrite Hrun. split.
    + intros [= Heq]. lia.
    + intros H. f_equal. lia.
Qed.

Lemma skim_there_and_back_witness :
  final ((skim 1;; skim (-1)) (mkProvider abc 2)) ≠ mkProvider abc 2 ∧
  final ((skim 1;; skim (-1)) (mkProvider abc 1)) = mkProvider abc 1.
Proof.
  assert (0 ≤ 2 ≤ len abc - 1) as H2 by (by split; vm_compute).
  assert (0 ≤ 1 ≤ len abc - 1) as H1 by (by split; vm_compute).
  destruct (skim_there_and_back abc 2 H2) as (_ & Hlast & _).
  destruct (skim_there_and_back abc 1 H1) as (_ & Hmid & _).
  split.
  - intros Heq. apply Hlast in Heq. vm_compute in Heq.
    destruct Heq as [Heq|Heq]; discriminate Heq.
  - apply Hmid. left. by vm_compute.
Defined.

Lemma display_current_images_final (k : Z) (self : CurrentImagesProvider) :
  final (display_current_images k self) = self.
Proof.
  unfold display_current_images.
  rewrite final_bind, get_outcome, get_final.
  rewrite final_bind, progress_run. unfold truediv.
  by case_decide.
Qed.

Lemma display_current_images_outcome (k : Z) (self : CurrentImagesProvider) :
  outcome (display_current_images k self) =
  if decide (len (images self) = 0) then inl ZeroDivisionError
  else inr (py_slice (images self) (get_index self k)
                     (get_index self k + get_number self k),
            (inject_Z (100 * (current self + 1))
             / inject_Z (len (images self)))%Q).
Proof.
  unfold display_current_images.
  rewrite outcome_bind, get_outcome, get_final.
  rewrite outcome_bind, progress_run. unfold truediv.
  by case_decide.
Qed.

(** The progress bar: strictly growing with the cursor, and full exactly on
    the last image. *)
Theorem progress_monotone (imgs : list Path) (c1 c2 : Z) :
  imgs ≠ [] →
  ∃ q1 q2,
    returns (progress (mkProvider imgs c1)) q1 ∧
    returns (progress (mkProvider imgs c2)) q2 ∧
    (c1 < c2 ↔ (q1 < q2)%Q) ∧
    (c1 = len imgs - 1 ↔ (q1 == 100)%Q).
Proof.
  intros Hne.
  assert (0 < len imgs) as HN.
  { destruct imgs; [done|]. unfold len. cbn [length]. lia. }
  assert (0 < inject_Z (len imgs))%Q as HNQ
    by (rewrite <- (Zlt_Qlt 0); lia).
  assert (¬ (inject_Z (len imgs) == 0)%Q) as HNQ0.
  { intros Heq. rewrite Heq in HNQ. by apply Qlt_irrefl in HNQ. }
  unfold returns. rewrite !progress_run. unfold truediv.
  cbn [images current]. destruct (decide (len imgs = 0)); [lia|].
  do 2 eexists. split_and!; [reflexivity|reflexivity| |].
  - unfold Qdiv. rewrite Qmult_lt_r by by apply Qinv_lt_0_compat.
    rewrite <- Zlt_Qlt. lia.
  - split.
    + intros ->. replace (100 * (len imgs - 1 + 1)) with (100 * len imgs) by lia.
      rewrite inject_Z_mult. by apply Qdiv_mult_l.
    + intros Heq.
      assert (inject_Z (100 * (c1 + 1)) == inject_Z (100 * len imgs))%Q as H.
      { rewrite <- (Qmult_div_r (inject_Z (100 * (c1 + 1))) (inject_Z (len imgs)))
          by done.
        rewrite Heq, inject_Z_mult. apply Qmult_comm. }
      rewrite inject_Z_injective in H. lia.
Qed.

Lemma progress_monotone_witness :
  ∃ q1 q2,
    returns (progress (mkProvider abc 1)) q1 ∧
    returns (progress (mkProvider abc 2)) q2 ∧
    (1 < 2 ↔ (q1 < q2)%Q) ∧
    (1 = len abc - 1 ↔ (q1 == 100)%Q).
Proof.
  assert (abc ≠ []) as Hne by done.
  exact (progress_monotone abc 1 2 Hne).
Defined.

(** Browsing with the two buttons.  With at least one image no sequence of
    presses raises, whatever the spin box shows; the image list stays and the
    cursor stays on an image.  Without images the first press raises
    [ZeroDivisionError]. *)
Theorem press_all_safe (imgs : list Path) (presses : list (bool * Z)) :
  (imgs ≠ [] →
   returns (press_all presses (mkProvider imgs 0)) tt ∧
   images (final (press_all presses (mkProvider imgs 0))) = imgs ∧
   0 ≤ current (final (press_all presses (mkProvider imgs 0)))
     ≤ len imgs - 1) ∧
  (imgs = [] → presses ≠ [] →
   raises (press_all presses (mkProvider imgs 0)) ZeroDivisionError).
Proof.
  split.
  - intros Hne.
    assert (0 < len imgs) as HN.
    { destruct imgs; [done|]. unfold len. cbn [length]. lia. }
    assert (∀ c, 0 ≤ c ≤ len imgs - 1 →
              returns (press_all presses (mkProvider imgs c)) tt ∧
              images (final (press_all presses (mkProvider imgs c))) = imgs ∧
              0 ≤ current (final (press_all presses (mkProvider imgs c)))
                ≤ len imgs - 1) as Hall; [|apply Hall; lia].
    unfold returns.
    induction presses as [|[b k] presses IH]; intros c Hc; [done|].
    cbn [press_all]. rewrite outcome_bind, final_bind.
    assert (∃ n, (if b then next_image k else previous_image k)
                 = (skim n;; display_current_images k)) as [n ->]
      by (destruct b; by eexists).
    rewrite outcome_bind, final_bind, skim_run. cbn [outcome final].
    rewrite display_current_images_outcome, display_current_images_final.
    cbn [images]. rewrite decide_False by lia.
    apply IH. lia.
  - intros -> Hb. destruct presses as [|[b k] presses]; [done|].
    unfold raises. cbn [press_all]. rewrite outcome_bind.
    assert (∃ n, (if b then next_image k else previous_image k)
                 = (skim n;; display_current_images k)) as [n ->]
      by (destruct b; by eexists).
    rewrite outcome_bind, skim_run. cbn [outcome final].
    by rewrite display_current_images_outcome.
Qed.

(** Copying and deleting keep the file system well-formed, however they
    end: every entry still lies in a directory. *)
Theorem writes_keep_well_formed (fs : FS) (file directory : Path) :
  well_formed fs →
  well_formed (final (copy_file_to_directory file directory fs)) ∧
  well_formed (final (delete_file_in_directory file directory fs)).
Proof.
  intros Hwf. split.
  - by apply copy_file_to_directory_well_formed.
  - by apply delete_file_in_directory_well_formed.
Qed.

Lemma writes_keep_well_formed_witness :
  well_formed (final (copy_file_to_directory a_jpg album disk0)) ∧
  well_formed (final (delete_file_in_directory a_jpg album disk0)).
Proof. exact (writes_keep_well_formed disk0 a_jpg album disk0_well_formed). Defined.

Lemma skim_all_in_range_witness :
  returns (skim_all [5; -1; -7] (mkProvider abc 1)) tt ∧
  0 ≤ current (final (skim_all [5; -1; -7] (mkProvider abc 1)))
    ≤ Z.max 0 (len abc - 1).
Proof.
  assert (0 ≤ current (mkProvider abc 1)
          ≤ Z.max 0 (len (images (mkProvider abc 1)) - 1)) as Hc
    by (by split; vm_compute).
  destruct (skim_all_in_range [5; -1; -7] (mkProvider abc 1) Hc)
    as (Hr & _ & Hcur).
  split; [exact Hr|exact Hcur].
Defined.

Lemma progress_in_range_witness :
  ∃ q, returns (progress (mkProvider abc 1)) q ∧ (0 < q ∧ q <= 100)%Q.
Proof.
  assert (0 ≤ 1 ≤ len abc - 1) as Hc by (by split; vm_compute).
  exact (progress_in_range abc 1 Hc).
Defined.

(** ** The order of paths *)

Lemma ascii_compare_eq (a b : Ascii.ascii) : Ascii.compare a b = Eq ↔ a = b.
Proof.
  split; [apply Ascii.compare_eq_iff|intros ->; apply N.compare_refl].
Qed.

Lemma ascii_compare_opp (a b : Ascii.ascii) :
  Ascii.compare b a = CompOpp (Ascii.compare a b).
Proof. apply Ascii.compare_antisym. Qed.

Lemma ascii_compare_trans (a b c : Ascii.ascii) (r : comparison) :
  Ascii.compare a b = r → Ascii.compare b c = r → Ascii.compare a c = r.
Proof.
  unfold Ascii.compare. destruct r.
  - rewrite !N.compare_eq_iff. congruence.
  - rewrite !N.compare_lt_iff. lia.
  - rewrite !N.compare_gt_iff. lia.
Qed.

(** Strings are compared as the lists of their bytes are. *)
Lemma string_compare_list (s1 s2 : string) :
  String.compare s1 s2 =
  list_compare Ascii.compare (String.list_ascii_of_string s1)
                             (String.list_ascii_of_string s2).
Proof.
  revert s2. induction s1 as [|a s1 IH]; intros [|b s2]; cbn; try done.
  rewrite IH. by destruct (Ascii.compare a b).
Qed.

Lemma string_compare_eq (s1 s2 : string) : String.compare s1 s2 = Eq ↔ s1 = s2.
Proof.
  split; [apply String.compare_eq_iff|]. intros ->.
  rewrite string_compare_list.
  by apply (List.list_compare_refl _ ascii_compare_eq).
Qed.

Lemma string_compare_opp (s1 s2 : string) :
  String.compare s2 s1 = CompOpp (String.compare s1 s2).
Proof. apply String.compare_antisym. Qed.

Lemma string_compare_trans (s1 s2 s3 : string) (r : comparison) :
  String.compare s1 s2 = r → String.compare s2 s3 = r →
  String.compare s1 s3 = r.
Proof.
  rewrite !string_compare_list.
  exact (List.list_compare_trans _ ascii_compare_eq _ _ _
           ascii_compare_trans ascii_compare_opp).
Qed.

Lemma Path_compare_opp (p q : Path) :
  Path_compare q p = CompOpp (Path_compare p q).
Proof.
  exact (List.list_compare_antisym _ string_compare_eq _ _
           string_compare_opp).
Qed.

Lemma Path_compare_trans (p q r : Path) (c : comparison) :
  Path_compare p q = c → Path_compare q r = c → Path_compare p r = c.
Proof.
  exact (List.list_compare_trans _ string_compare_eq _ _ _
           string_compare_trans string_compare_opp).
Qed.

Lemma Path_compare_Eq (p q : Path) :
  Path_compare p q = Eq ↔ cparts p = cparts q.
Proof. apply (List.list_compare_refl _ string_compare_eq). Qed.

Global Instance Path_le_total : Total Path_le.
Proof.
  intros p q. unfold Path_le. rewrite (Path_compare_opp p q).
  destruct (Path_compare p q); cbn; auto.
Qed.

Global Instance Path_le_trans : Transitive Path_le.
Proof.
  intros p q r. unfold Path_le.
  destruct (Path_compare p q) eqn:Hpq; [| |done].
  - apply Path_compare_Eq in Hpq. unfold Path_compare. by rewrite Hpq.
  - destruct (Path_compare q r) eqn:Hqr; [| |done]; intros _ _.
    + apply Path_compare_Eq in Hqr. unfold Path_compare in *.
      by rewrite <- Hqr, Hpq.
    + by rewrite (Path_compare_trans p q r Lt Hpq Hqr).
Qed.

(** ** Entries of a directory *)

Lemma entry_of_child (directory q : Path) :
  entry_of directory q
  ↔ ∃ n, q = mkPath (anchored directory) (parts directory ++ [n]).
Proof.
  unfold entry_of, parent. split.
  - intros [Hne <-]. cbn. exists (List.last (parts q) EmptyString).
    destruct q as [a l]. cbn in *. f_equal. by apply app_removelast_last.
  - intros [n ->]. cbn. split; [by destruct (parts directory)|].
    rewrite removelast_last. by destruct directory.
Qed.

(** Two entries of one directory compare as their names do. *)
Lemma Path_compare_entries (directory : Path) (n1 n2 : string) :
  Path_compare (mkPath (anchored directory) (parts directory ++ [n1]))
               (mkPath (anchored directory) (parts directory ++ [n2]))
  = String.compare n1 n2.
Proof.
  unfold Path_compare, cparts. cbn [anchored parts].
  rewrite !app_assoc, !(List.list_compare_app _ string_compare_eq).
  cbn. by destruct (String.compare n1 n2).
Qed.

Lemma name_child (directory : Path) (n : string) :
  name (mkPath (anchored directory) (parts directory ++ [n])) = n.
Proof. unfold name. cbn. by rewrite last_snoc. Qed.

(** ** Finding the images *)

Lemma run_pure {S A B} (m : M S A) (k : A → M S B) s a :
  m s = Run (inr a) s EmptyString → (m ≫= k) s = k a s.
Proof.
  intros Hm. unfold mbind, M_bind, bind. rewrite Hm. cbn.
  by destruct (k a s).
Qed.

(** A comprehension whose condition only reads is a filter. *)
Lemma comprehension_pure {S A} (f : A → M S bool) (g : A → bool) l s :
  (∀ x, x ∈ l → f x s = Run (inr (g x)) s EmptyString) →
  comprehension f l s
  = Run (inr (filter (λ x, g x = true) l)) s EmptyString.
Proof.
  induction l as [|x l IH]; intros Hf; [done|].
  cbn [comprehension].
  rewrite (run_pure _ _ _ _ (Hf x ltac:(left))).
  rewrite (run_pure _ _ _ _ (IH (λ y Hy, Hf y ltac:(by right)))).
  rewrite filter_cons. by destruct (g x).
Qed.

Lemma get_images_in_run tests directory (fs : FS) :
  get_images_in tests directory fs =
  Run (inr (found_images tests directory fs)) fs EmptyString.
Proof.
  unfold get_images_in, found_images. rewrite run_gets.
  rewrite (run_pure _ _ _ _
             (comprehension_pure _ (λ x, is_file x fs) _ fs (λ _ _, eq_refl))).
  rewrite (run_pure _ _ _
             (filter (λ q, recognised tests fs q = true)
                (filter (λ q, is_file q fs = true) (glob_star directory fs))));
    [done|].
  apply comprehension_pure. intros x Hx.
  apply list_elem_of_filter in Hx as [Hx _].
  apply is_file_Some in Hx as [c Hc].
  unfold imghdr_what, read_bytes, recognised.
  unfold mbind, M_bind, bind, mret, M_ret, ret. by rewrite Hc.
Qed.

Lemma elem_of_glob_star directory (fs : FS) q :
  q ∈ glob_star directory fs
  ↔ is_dir directory fs = true ∧ entry_of directory q ∧ is_Some (fs !! q).
Proof.
  unfold glob_star. destruct (is_dir directory fs).
  - rewrite list_elem_of_filter, list_elem_of_fmap. split.
    + intros [He [[q' x] [-> Hx]]]. apply elem_of_map_to_list in Hx.
      cbn. by rewrite Hx.
    + intros (_ & He & [x Hx]). split; [done|]. exists (q, x).
      split; [done|]. by apply elem_of_map_to_list.
  - split; [by intros ?%elem_of_nil|by intros [? _]].
Qed.

Lemma NoDup_glob_star directory (fs : FS) : NoDup (glob_star directory fs).
Proof.
  unfold glob_star. destruct (is_dir directory fs); [|constructor].
  apply NoDup_filter, NoDup_fst_map_to_list.
Qed.

Lemma elem_of_images tests directory (fs : FS) q :
  q ∈ found_images tests directory fs ↔ image_in tests fs directory q.
Proof.
  unfold found_images, sorted. rewrite merge_sort_Permutation.
  rewrite !list_elem_of_filter, elem_of_glob_star.
  unfold image_in, recognised. rewrite is_file_Some. split.
  - intros (Hr & [c Hc] & Hd & He & _). rewrite Hc in Hr.
    apply bool_decide_eq_true in Hr. split_and!; try done. by exists c.
  - intros (Hd & He & c & Hc & Hr). rewrite Hc.
    split_and!; try done; [by apply bool_decide_eq_true|by exists c].
Qed.

Lemma NoDup_images tests directory (fs : FS) :
  NoDup (found_images tests directory fs).
Proof.
  unfold found_images, sorted. rewrite merge_sort_Permutation.
  by apply NoDup_filter, NoDup_filter, NoDup_glob_star.
Qed.

(** [get_images_in] always returns, changes nothing and prints nothing.  Its
    result holds exactly the regular files among the entries of [directory]
    that [imghdr] recognises, each of them once; it is empty when
    [directory] is not a directory. *)
Theorem get_images_in_finds tests (directory : Path) (fs : FS) :
  ∃ found,
    get_images_in tests directory fs = Run (inr found) fs EmptyString ∧
    (∀ q, q ∈ found ↔ image_in tests fs directory q) ∧
    NoDup found ∧
    (is_dir directory fs = false → found = []).
Proof.
  eexists. split; [apply get_images_in_run|]. split_and!.
  - apply elem_of_images.
  - apply NoDup_images.
  - intros Hd. unfold found_images, glob_star. by rewrite Hd.
Qed.

Lemma StronglySorted_lookup {A} (R : relation A) (l : list A) i j x y :
  StronglySorted R l →
  l !! i = Some x → l !! j = Some y → (i < j)%nat → R x y.
Proof.
  intros Hs. revert i j.
  induction Hs as [|z l Hs IH Hall]; intros i j Hi Hj Hij; [done|].
  destruct j as [|j]; [lia|]. cbn in Hj. destruct i as [|i].
  - cbn in Hi. injection Hi as ->.
    rewrite Forall_forall in Hall. apply Hall.
    by apply list_elem_of_lookup_2 in Hj.
  - cbn in Hi. apply (IH i j); [done..|lia].
Qed.

(** Two entries of one directory that are each at most the other are the
    same. *)
Lemma Path_le_antisym_entries directory (p q : Path) :
  entry_of directory p → entry_of directory q →
  Path_le p q → Path_le q p → p = q.
Proof.
  intros [n1 ->]%entry_of_child [n2 ->]%entry_of_child.
  unfold Path_le. rewrite (Path_compare_opp _ (mkPath _ (_ ++ [n2]))).
  rewrite Path_compare_entries.
  destruct (String.compare n1 n2) eqn:Hc; cbn; try done.
  apply string_compare_eq in Hc as ->. done.
Qed.

Lemma Sorted_images tests directory (fs : FS) :
  Sorted Path_le (found_images tests directory fs).
Proof. apply (Sorted_merge_sort _). Qed.

Lemma images_ascending tests directory (fs : FS) i j x y :
  found_images tests directory fs !! i = Some x →
  found_images tests directory fs !! j = Some y →
  (i < j)%nat →
  String.compare (name x) (name y) = Lt.
Proof.
  intros Hi Hj Hij.
  assert (Path_le x y) as Hle.
  { apply (StronglySorted_lookup Path_le (found_images tests directory fs)
             i j x y); [|done..].
    apply Sorted_StronglySorted; [apply _|apply Sorted_images]. }
  assert (x ≠ y) as Hne.
  { intros ->. pose proof (NoDup_images tests directory fs) as Hnd.
    pose proof (NoDup_lookup _ _ _ _ Hnd Hi Hj). lia. }
  apply list_elem_of_lookup_2, elem_of_images in Hi as (_ & Hx & _).
  apply list_elem_of_lookup_2, elem_of_images in Hj as (_ & Hy & _).
  apply entry_of_child in Hx as [n1 ->].
  apply entry_of_child in Hy as [n2 ->].
  rewrite !name_child. unfold Path_le in Hle.
  rewrite Path_compare_entries in Hle.
  destruct (String.compare n1 n2) eqn:Hc; try done.
  apply string_compare_eq in Hc as ->. done.
Qed.

(** The result of [get_images_in] is in ascending order of paths, which for
    the entries of one directory is the strict ascending order of their
    names, compared byte by byte.  It is the only ascending arrangement of
    the images found, so the sorting procedure does not matter. *)
Theorem get_images_in_sorted tests (directory : Path) (fs : FS) :
  ∃ found,
    returns (get_images_in tests directory fs) found ∧
    Sorted Path_le found ∧
    (∀ i j x y,
       found !! i = Some x → found !! j = Some y → (i < j)%nat →
       String.compare (name x) (name y) = Lt) ∧
    (∀ l, l ≡ₚ found → Sorted Path_le l → l = found).
Proof.
  exists (found_images tests directory fs).
  unfold returns. rewrite get_images_in_run. cbn [outcome].
  split_and!; [done|apply Sorted_images|apply images_ascending|].
  intros l Hl Hsl.
  apply (Sorted_unique_strong Path_le); [|done|apply Sorted_images|done].
  intros x1 x2 H1 H2. rewrite Hl in H1.
  apply elem_of_images in H1 as (_ & H1 & _).
  apply elem_of_images in H2 as (_ & H2 & _).
  by apply (Path_le_antisym_entries directory).
Qed.

Example get_images_in_holiday :
  outcome (get_images_in jpeg_only (rel ["photos"]) holiday)
  = inr [a_jpg; b_jpg].
Proof. vm_compute. reflexivity. Qed.

(** ** Construction and start-up *)

Lemma check_folders_cons (d : Path) (rest : list Path) (fs : FS) :
  check_folders (d :: rest) fs =
  if is_dir d fs then check_folders rest fs
  else Run (inl (ValueError (str d +:+ " is not a directory."))) fs EmptyString.
Proof.
  cbn [check_folders]. rewrite run_gets.
  unfold exists_, is_dir.
  destruct (fs !! d) as [[]|] eqn:E; cbn [negb].
  4: by rewrite run_ret.
  all: rewrite (run_pure _ _ fs (negb (is_dir d fs))).
  all: unfold is_dir; rewrite ?E; cbn [negb]; try done.
  all: unfold mbind, M_bind, bind, gets, mret, M_ret, ret; by rewrite E.
Qed.

Lemma check_folders_pass (folders : list Path) (fs : FS) :
  Forall (λ d, is_dir d fs = true) folders →
  check_folders folders fs = Run (inr tt) fs EmptyString.
Proof.
  induction 1 as [|d folders Hd _ IH]; [done|].
  by rewrite check_folders_cons, Hd.
Qed.

Lemma check_folders_fail (good rest : list Path) (bad : Path) (fs : FS) :
  Forall (λ d, is_dir d fs = true) good →
  is_dir bad fs = false →
  check_folders (good ++ bad :: rest) fs
  = Run (inl (ValueError (str bad +:+ " is not a directory."))) fs EmptyString.
Proof.
  intros Hgood Hbad. induction Hgood as [|d good Hd _ IH]; cbn [app].
  - by rewrite check_folders_cons, Hbad.
  - by rewrite check_folders_cons, Hd.
Qed.

Lemma check_folders_final (folders : list Path) (fs : FS) :
  final (check_folders folders fs) = fs.
Proof.
  induction folders as [|d folders IH]; [done|].
  rewrite check_folders_cons. by destruct (is_dir d fs).
Qed.

Lemma check_folders_outcome (folders : list Path) (fs : FS) :
  (∃ e, outcome (check_folders folders fs) = inl e)
  ∨ check_folders folders fs = Run (inr tt) fs EmptyString.
Proof.
  induction folders as [|d folders IH]; [by right|].
  rewrite check_folders_cons. destruct (is_dir d fs); [done|].
  left. by eexists.
Qed.

Lemma CurrentImagesProvider_init_run tests source (fs : FS) :
  CurrentImagesProvider_init tests source fs
  = Run (inr (mkProvider (found_images tests source fs) 0)) fs EmptyString.
Proof.
  unfold CurrentImagesProvider_init.
  by rewrite (run_pure _ _ _ _ (get_images_in_run tests source fs)).
Qed.

(** [PhotoSelectionGUI.__init__] goes through the source folder and the
    destination folders in this order and raises [ValueError] for the first
    that is not an existing directory.  When all are directories it builds
    the pager from the images of the source folder, with the cursor at 0,
    and [is_file_in_directory] then raises for none of the destinations.
    The file system is left as it is either way. *)
Theorem PhotoSelectionGUI_init_checks tests (source : Path)
    (destinations : list Path) (fs : FS) :
  (Forall (λ d, is_dir d fs = true) (source :: destinations) →
   ∃ found,
     returns (get_images_in tests source fs) found ∧
     returns (PhotoSelectionGUI_init tests source destinations fs)
             (mkProvider found 0) ∧
     ∀ file d, d ∈ destinations →
               ∃ b, returns (is_file_in_directory file d fs) b) ∧
  (∀ (good : list Path) (bad : Path) (rest : list Path),
     source :: destinations = (good ++ bad :: rest)%list →
     Forall (λ d, is_dir d fs = true) good →
     is_dir bad fs = false →
     raises (PhotoSelectionGUI_init tests source destinations fs)
            (ValueError (str bad +:+ " is not a directory."))) ∧
  final (PhotoSelectionGUI_init tests source destinations fs) = fs.
Proof.
  unfold returns, raises, PhotoSelectionGUI_init. cbn [app].
  split_and!.
  - intros Hall. exists (found_images tests source fs).
    rewrite (run_pure _ _ _ _ (check_folders_pass _ _ Hall)).
    rewrite get_images_in_run, CurrentImagesProvider_init_run.
    split_and!; try done.
    intros file d Hd. rewrite is_file_in_directory_run.
    apply Forall_cons in Hall as [_ Hall].
    rewrite Forall_forall in Hall. rewrite (Hall d Hd). by eexists.
  - intros good bad rest -> Hgood Hbad.
    by rewrite outcome_bind, (check_folders_fail _ _ _ _ Hgood Hbad).
  - rewrite final_bind.
    destruct (check_folders_outcome (source :: destinations) fs)
      as [[e He]|Hok].
    + rewrite He. apply check_folders_final.
    + rewrite Hok. cbn [outcome final].
      by rewrite CurrentImagesProvider_init_run.
Qed.

Lemma PhotoSelectionGUI_init_checks_witness :
  ∃ found,
    returns (get_images_in jpeg_only (rel ["photos"]) holiday) found ∧
    returns (PhotoSelectionGUI_init jpeg_only (rel ["photos"]) [album] holiday)
            (mkProvider found 0).
Proof.
  assert (Forall (λ d, is_dir d holiday = true) [rel ["photos"]; album])
    as Hall by (repeat constructor).
  destruct (PhotoSelectionGUI_init_checks jpeg_only (rel ["photos"]) [album]
              holiday) as (Hok & _ & _).
  destruct (Hok Hall) as (found & Hg & Hi & _).
  exists found. split; [exact Hg|exact Hi].
Defined.

(** Start-up, as [main] runs it once the folders are known: the window is
    built and [display_current_images] is called with one image to show.
    With all folders in place this raises [ZeroDivisionError] exactly when
    the source folder holds no image; otherwise the image with the least
    name is shown, alone, and the progress bar stands at the [N]-th part of
    100. *)
Theorem startup_shows_first tests (source : Path) (destinations : list Path)
    (fs : FS) :
  Forall (λ d, is_dir d fs = true) (source :: destinations) →
  ∃ pager,
    returns (PhotoSelectionGUI_init tests source destinations fs) pager ∧
    (raises (display_current_images 1 pager) ZeroDivisionError
     ↔ ¬ ∃ q, image_in tests fs source q) ∧
    (∀ q, image_in tests fs source q →
       ∃ first share,
         returns (display_current_images 1 pager) ([first], share) ∧
         image_in tests fs source first ∧
         (∀ other, image_in tests fs source other →
                   String.compare (name first) (name other) ≠ Gt) ∧
         (share * inject_Z (len (images pager)) == 100)%Q).
Proof.
  intros Hall. exists (mkProvider (found_images tests source fs) 0).
  unfold returns, raises, PhotoSelectionGUI_init.
  rewrite (run_pure _ _ _ _ (check_folders_pass _ _ Hall)).
  rewrite CurrentImagesProvider_init_run. cbn [outcome].
  split; [done|].
  rewrite display_current_images_outcome. cbn [images current].
  destruct (found_images tests source fs) as [|first rest] eqn:Hfound.
  - rewrite decide_True by done. split.
    + split; [|done]. intros _ [q Hq].
      apply elem_of_images in Hq. rewrite Hfound in Hq.
      by apply elem_of_nil in Hq.
    + intros q Hq. apply elem_of_images in Hq. rewrite Hfound in Hq.
      by apply elem_of_nil in Hq.
  - assert (len (first :: rest) ≠ 0) as HN by (unfold len; cbn [length]; lia).
    rewrite decide_False by done. split.
    + split; [done|]. intros Hno. exfalso. apply Hno. exists first.
      apply elem_of_images. rewrite Hfound. by left.
    + intros _ _. do 2 eexists. split_and!.
      * f_equal. f_equal. unfold get_index, get_number. cbn [images current].
        pose proof (len_nonneg rest) as Hr.
        assert (len (first :: rest) = 1 + len rest) as ->
          by (unfold len; cbn [length]; lia).
        rewrite (proj2 (Z.ltb_ge _ _)) by lia.
        assert ((0 + 1 >? 1 + len rest) = false) as ->
          by (rewrite Z.gtb_ltb; apply Z.ltb_ge; lia).
        unfold py_slice, slice_bound, len. cbn [length].
        rewrite (proj2 (Z.ltb_ge 0 0)) by lia.
        rewrite (proj2 (Z.ltb_ge (0 + 1) 0)) by lia.
        rewrite !Z.min_l by lia. done.
      * apply elem_of_images. rewrite Hfound. by left.
      * intros other Ho. apply elem_of_images in Ho.
        apply list_elem_of_lookup in Ho as [j Hj].
        destruct j as [|j].
        -- rewrite Hfound in Hj. injection Hj as <-.
           by rewrite (proj2 (string_compare_eq _ _) eq_refl).
        -- rewrite (images_ascending tests source fs 0 (S j) first other);
             [done|by rewrite Hfound|done|lia].
      * rewrite Qmult_comm. change (100 * (0 + 1)) with 100.
        change 100%Q with (inject_Z 100).
        apply Qmult_div_r.
        change 0%Q with (inject_Z 0). by rewrite inject_Z_injective.
Qed.

Lemma startup_shows_first_witness :
  ∃ pager,
    returns (PhotoSelectionGUI_init jpeg_only (rel ["photos"]) [album] holiday)
            pager ∧
    (raises (display_current_images 1 pager) ZeroDivisionError
     ↔ ¬ ∃ q, image_in jpeg_only holiday (rel ["photos"]) q).
Proof.
  assert (Forall (λ d, is_dir d holiday = true) [rel ["photos"]; album])
    as Hall by (repeat constructor).
  destruct (startup_shows_first jpeg_only (rel ["photos"]) [album] holiday
              Hall) as (pager & Hi & Hr & _).
  exists pager. split; [exact Hi|exact Hr].
Defined.

(** ** Buttons and labels *)

Lemma on_disk_run {A} (m : M FS A) (w : Desk) :
  on_disk m w =
  Run (outcome (m (disk w))) (mkDesk (final (m (disk w))) (ui w))
      (printed (m (disk w))).
Proof. done. Qed.

Lemma Desk_eta (w : Desk) : mkDesk (disk w) (ui w) = w.
Proof. by destruct w. Qed.

Lemma set_button_active_flags (button : widget) (active : bool) :
  options (set_button_active button active) = options button ∧
  flags (set_button_active button active)
  = if active then flags button ∖ {["disabled"]}
    else flags button ∪ {["disabled"]}.
Proof. by destruct active. Qed.

Lemma set_button_active_enabled (button : widget) (active : bool) :
  enabled (set_button_active button active) ↔ active = true.
Proof.
  unfold enabled. rewrite (proj2 (set_button_active_flags button active)).
  destruct active.
  - rewrite elem_of_difference, elem_of_singleton. split; [done|].
    intros _ [_ Hne]. by apply Hne.
  - rewrite elem_of_union, elem_of_singleton. split; [|done].
    intros Hne. exfalso. apply Hne. by right.
Qed.

Lemma FileCopyUI_update_run (w : Desk) :
  FileCopyUI_update w =
  if is_dir (destination_directory (ui w)) (disk w) then
    Run (inr tt)
        (mkDesk (disk w)
           (shown (is_file (get_expected_file_in_directory
                              (file (ui w)) (destination_directory (ui w)))
                           (disk w))
                  (ui w)))
        EmptyString
  else
    Run (inl (ValueError (str (destination_directory (ui w))
                          +:+ " is not a directory.")))
        w EmptyString.
Proof.
  unfold FileCopyUI_update. rewrite run_gets.
  unfold mbind at 1, M_bind at 1, bind at 1.
  rewrite on_disk_run, is_file_in_directory_run.
  destruct (is_dir _ (disk w)); cbn [outcome final printed].
  - rewrite run_gets. done.
  - by rewrite Desk_eta.
Qed.

(** [FileCopyUI.update] brings the widgets of a destination in line with the
    disk.  With the destination in place it returns, leaves the disk alone,
    and afterwards the copy button can be pressed exactly when the file is
    not in the directory, the delete button exactly when it is, and the
    label says which is the case, in green or blue.  It touches no other
    option of the label and no other flag of the buttons.  With the
    destination gone it raises [ValueError] and leaves every widget as it
    was. *)
Theorem FileCopyUI_update_spec (w : Desk) :
  (is_dir (destination_directory (ui w)) (disk w) = false →
   raises_ValueError (FileCopyUI_update w) ∧
   final (FileCopyUI_update w) = w) ∧
  (is_dir (destination_directory (ui w)) (disk w) = true →
   ∃ is_copied,
     returns (is_file_in_directory (file (ui w))
                (destination_directory (ui w)) (disk w)) is_copied ∧
     returns (FileCopyUI_update w) tt ∧
     disk (final (FileCopyUI_update w)) = disk w ∧
     (enabled (copy_button (ui (final (FileCopyUI_update w))))
      ↔ is_copied = false) ∧
     (enabled (delete_button (ui (final (FileCopyUI_update w))))
      ↔ is_copied = true) ∧
     options (current_state (ui (final (FileCopyUI_update w)))) !! "text"
     = Some ((if is_copied then "schon" else "noch nicht") +:+ " in "
             +:+ name (destination_directory (ui w))) ∧
     options (current_state (ui (final (FileCopyUI_update w))))
       !! "background"
     = Some (if is_copied then "green" else "blue") ∧
     options (current_state (ui (final (FileCopyUI_update w))))
       !! "foreground"
     = Some (if is_copied then "black" else "white") ∧
     (∀ key, key ≠ "text" → key ≠ "background" → key ≠ "foreground" →
        options (current_state (ui (final (FileCopyUI_update w)))) !! key
        = options (current_state (ui w)) !! key) ∧
     (∀ flag, flag ≠ "disabled" →
        (flag ∈ flags (copy_button (ui (final (FileCopyUI_update w))))
         ↔ flag ∈ flags (copy_button (ui w))) ∧
        (flag ∈ flags (delete_button (ui (final (FileCopyUI_update w))))
         ↔ flag ∈ flags (delete_button (ui w))))).
Proof.
  unfold returns, raises_ValueError.
  rewrite FileCopyUI_update_run, is_file_in_directory_run.
  destruct (is_dir _ (disk w)); cbn [outcome final]; split; try done.
  - intros _.
    exists (is_file (get_expected_file_in_directory
                       (file (ui w)) (destination_directory (ui w))) (disk w)).
    cbn [disk ui shown copy_button delete_button current_state].
    rewrite !set_button_active_enabled.
    cbn [setitem options].
    split_and!; [done|done|done| |done| | | | |].
    + by rewrite negb_true_iff.
    + by rewrite !lookup_insert_ne, lookup_insert_eq by done.
    + by rewrite lookup_insert_ne, lookup_insert_eq by done.
    + by rewrite lookup_insert_eq.
    + intros key H1 H2 H3. by rewrite !lookup_insert_ne by done.
    + intros flag Hflag.
      rewrite !(proj2 (set_button_active_flags _ _)).
      destruct (is_file _ _); cbn [negb];
        rewrite elem_of_difference, elem_of_union, !elem_of_singleton;
        split; tauto.
  - intros _. split; [by eexists|done].
Qed.

Lemma run_callbacks_update (w : Desk) :
  run_callbacks [FileCopyUI_update] w =
  Run (outcome (FileCopyUI_update w)) (final (FileCopyUI_update w))
      EmptyString.
Proof.
  cbn [run_callbacks]. unfold mbind, M_bind, bind.
  rewrite FileCopyUI_update_run.
  by destruct (is_dir _ (disk w)).
Qed.

(** Pressing the copy button of a destination.  When the call returns, the
    copy has returned, the file is in the directory, the copy button is
    disabled and the delete button enabled.  When the call raises, it is the
    copy that raised: the callback has not run and disk and widgets are as
    they were. *)
Theorem press_copy (f d : Path) (w : Desk) :
  file (ui w) = f →
  destination_directory (ui w) = d →
  (returns (FileAction_call (copyer f d) w) tt →
   returns (copy_file_to_directory f d (disk w)) tt ∧
   disk (final (FileAction_call (copyer f d) w))
   = final (copy_file_to_directory f d (disk w)) ∧
   is_file (get_expected_file_in_directory f d)
           (disk (final (FileAction_call (copyer f d) w))) = true ∧
   ui (final (FileAction_call (copyer f d) w)) = shown true (ui w) ∧
   ¬ enabled (copy_button (ui (final (FileAction_call (copyer f d) w)))) ∧
   enabled (delete_button (ui (final (FileAction_call (copyer f d) w))))) ∧
  (∀ e, raises (FileAction_call (copyer f d) w) e →
        raises (copy_file_to_directory f d (disk w)) e ∧
        final (FileAction_call (copyer f d) w) = w).
Proof.
  intros Hf Hd. unfold returns, raises, FileAction_call.
  cbn [copyer action source destination callbacks].
  rewrite outcome_bind, final_bind, on_disk_run. cbn [outcome final].
  destruct (outcome (copy_file_to_directory f d (disk w))) as [e|[]] eqn:Hc.
  - split; [done|]. intros e' [= <-]. split; [done|].
    rewrite (copy_file_to_directory_raises _ _ _ _ Hc). apply Desk_eta.
  - apply copy_file_to_directory_present in Hc as [Hdir Hfile].
    rewrite run_callbacks_update, FileCopyUI_update_run.
    cbn [disk ui]. rewrite Hf, Hd, Hdir, Hfile. cbn [outcome final disk ui].
    split; [|done]. intros _.
    cbn [shown copy_button delete_button negb].
    rewrite !set_button_active_enabled. by split_and!.
Qed.

Lemma press_copy_witness :
  returns (FileAction_call (copyer a_jpg album)
             (mkDesk disk0 (fresh_ui a_jpg album))) tt ∧
  enabled (delete_button (ui (final
    (FileAction_call (copyer a_jpg album)
       (mkDesk disk0 (fresh_ui a_jpg album)))))).
Proof.
  assert (returns (FileAction_call (copyer a_jpg album)
                     (mkDesk disk0 (fresh_ui a_jpg album))) tt) as Hr
    by reflexivity.
  split; [exact Hr|].
  destruct (press_copy a_jpg album (mkDesk disk0 (fresh_ui a_jpg album))
              eq_refl eq_refl) as [Hok _].
  exact (proj2 (proj2 (proj2 (proj2 (proj2 (Hok Hr)))))).
Defined.

(** Pressing the delete button of a destination.  When the call returns,
    nothing lies at the expected place any more, the copy button is enabled
    and the delete button disabled.  When the call raises, it raises
    [ValueError] and the widgets are as they were. *)
Theorem press_delete (f d : Path) (w : Desk) :
  file (ui w) = f →
  destination_directory (ui w) = d →
  (returns (FileAction_call (deleter f d) w) tt →
   returns (delete_file_in_directory f d (disk w)) tt ∧
   disk (final (FileAction_call (deleter f d) w))
   = final (delete_file_in_directory f d (disk w)) ∧
   exists_ (get_expected_file_in_directory f d)
           (disk (final (FileAction_call (deleter f d) w))) = false ∧
   ui (final (FileAction_call (deleter f d) w)) = shown false (ui w) ∧
   enabled (copy_button (ui (final (FileAction_call (deleter f d) w)))) ∧
   ¬ enabled (delete_button (ui (final (FileAction_call (deleter f d) w))))) ∧
  (∀ e, raises (FileAction_call (deleter f d) w) e →
        is_ValueError e = true ∧
        ui (final (FileAction_call (deleter f d) w)) = ui w).
Proof.
  intros Hf Hd. unfold returns, raises, FileAction_call.
  cbn [deleter action source destination callbacks].
  rewrite outcome_bind, final_bind, on_disk_run. cbn [outcome final].
  rewrite delete_file_in_directory_outcome, delete_file_in_directory_final.
  assert (∀ fs' : FS,
            fs' !! get_expected_file_in_directory f d = None →
            is_file (get_expected_file_in_directory f d) fs' = false)
    as Habsent by (intros fs' H; unfold is_file; by rewrite H).
  destruct (disk w !! get_expected_file_in_directory f d)
    as [[content| |]|] eqn:E.
  - rewrite run_callbacks_update, FileCopyUI_update_run.
    cbn [disk ui]. rewrite Hf, Hd.
    rewrite (Habsent _ (lookup_delete_eq _ _)).
    destruct (is_dir d (delete _ (disk w))); cbn [outcome final disk ui].
    + split; [|done]. intros _.
      cbn [shown copy_button delete_button negb].
      rewrite !set_button_active_enabled. split_and!; try done.
      apply exists_None, lookup_delete_eq.
    + split; [done|]. by intros e [= <-].
  - split; [done|]. by intros e [= <-].
  - split; [done|]. by intros e [= <-].
  - rewrite run_callbacks_update, FileCopyUI_update_run.
    cbn [disk ui]. rewrite Hf, Hd, (Habsent _ E).
    destruct (is_dir d (disk w)); cbn [outcome final disk ui].
    + split; [|done]. intros _.
      cbn [shown copy_button delete_button negb].
      rewrite !set_button_active_enabled. split_and!; try done.
      by apply exists_None.
    + split; [done|]. by intros e [= <-].
Qed.

Lemma press_delete_witness :
  returns (FileAction_call (deleter a_jpg album) desk_copied) tt ∧
  enabled (copy_button (ui (final
    (FileAction_call (deleter a_jpg album) desk_copied)))).
Proof.
  assert (returns (FileAction_call (deleter a_jpg album) desk_copied) tt)
    as Hr by reflexivity.
  split; [exact Hr|].
  destruct (press_delete a_jpg album desk_copied eq_refl eq_refl) as [Hok _].
  exact (proj1 (proj2 (proj2 (proj2 (proj2 (Hok Hr)))))).
Defined.

(** Once [FileCopyUI.update] has run, an enabled delete button does what it
    says: pressing it returns, and afterwards it is disabled. *)
Theorem enabled_delete_returns (w : Desk) :
  returns (FileCopyUI_update w) tt →
  enabled (delete_button (ui (final (FileCopyUI_update w)))) →
  returns (FileAction_call
             (deleter (file (ui w)) (destination_directory (ui w)))
             (final (FileCopyUI_update w))) tt ∧
  ¬ enabled (delete_button (ui (final
      (FileAction_call
         (deleter (file (ui w)) (destination_directory (ui w)))
         (final (FileCopyUI_update w)))))).
Proof.
  unfold returns. rewrite FileCopyUI_update_run.
  destruct (is_dir (destination_directory (ui w)) (disk w)) eqn:Hdir; [|done].
  cbn [outcome final ui shown delete_button]. intros _.
  rewrite set_button_active_enabled. intros Hfile.
  unfold FileAction_call.
  cbn [deleter action source destination callbacks].
  rewrite outcome_bind, final_bind, on_disk_run. cbn [outcome final disk ui].
  rewrite delete_file_in_directory_outcome, delete_file_in_directory_final.
  pose proof Hfile as Hf. apply is_file_Some in Hf as [c Hc]. rewrite Hc.
  rewrite run_callbacks_update, FileCopyUI_update_run.
  cbn [disk ui shown file destination_directory].
  assert (is_dir (destination_directory (ui w))
            (delete (get_expected_file_in_directory (file (ui w))
                       (destination_directory (ui w))) (disk w)) = true)
    as ->.
  { apply is_dir_Some. rewrite lookup_delete_ne; [by apply is_dir_Some|].
    intros Heq. apply is_dir_Some in Hdir. congruence. }
  cbn [outcome final ui shown delete_button]. split; [done|].
  rewrite set_button_active_enabled. unfold is_file.
  by rewrite lookup_delete_eq.
Qed.

Lemma enabled_delete_returns_witness :
  returns (FileAction_call (deleter a_jpg album)
             (final (FileCopyUI_update desk_copied))) tt.
Proof.
  assert (returns (FileCopyUI_update desk_copied) tt) as Hr by reflexivity.
  assert (enabled (delete_button (ui (final (FileCopyUI_update desk_copied)))))
    as He.
  { rewrite FileCopyUI_update_run. cbn [desk_copied disk ui].
    assert (is_dir (destination_directory (fresh_ui a_jpg album)) disk_copied
            = true) as -> by reflexivity.
    cbn [final ui shown delete_button].
    apply set_button_active_enabled. reflexivity. }
  exact (proj1 (enabled_delete_returns desk_copied Hr He)).
Defined.

(** ** Asking for the folders *)

Lemma run_step {S A B} (m : M S A) (k : A → M S B) s a s' :
  m s = Run (inr a) s' EmptyString → (m ≫= k) s = k a s'.
Proof.
  intros Hm. unfold mbind, M_bind, bind. rewrite Hm. cbn.
  by destruct (k a s').
Qed.

Lemma ask_for_directory_run user description (s : Dialogs) :
  ask_for_directory user description s =
  Run (inr (if decide (String.length (picks user (picked s)) = 0%nat)
            then None
            else Some (pathlib_Path user (picks user (picked s)))))
      {| picked := S (picked s); replied := replied s;
         shown_dialogs := shown_dialogs s ++ [Askdirectory description] |}
      EmptyString.
Proof.
  unfold ask_for_directory, askdirectory.
  unfold mbind, M_bind, bind, gets, put, mret, M_ret, ret. cbn.
  by case_decide.
Qed.

Lemma showwarning_run message (s : Dialogs) :
  showwarning message s =
  Run (inr tt)
      {| picked := picked s; replied := replied s;
         shown_dialogs := shown_dialogs s ++ [Showwarning message] |}
      EmptyString.
Proof. done. Qed.

Lemma askyesno_run user message (s : Dialogs) :
  askyesno user message s =
  Run (inr (replies user (replied s)))
      {| picked := picked s; replied := S (replied s);
         shown_dialogs := shown_dialogs s ++ [Askyesno message] |}
      EmptyString.
Proof. done. Qed.

Lemma length_0_empty (text : string) :
  String.length text = 0%nat ↔ text = EmptyString.
Proof. by destruct text. Qed.

(** [insist_for_directory] gives up on nobody: when the user cancels [n]
    folder dialogs and then picks a folder, it returns this folder, read as
    a path, after [n] warnings, provided the fuel allows for [n + 1]
    rounds.  A cancelled dialog never yields a path. *)
Theorem insist_for_directory_returns user (fuel n : nat)
    (description explanation : string) (s : Dialogs) :
  (∀ i, (i < n)%nat → picks user (picked s + i) = EmptyString) →
  picks user (picked s + n) ≠ EmptyString →
  (n < fuel)%nat →
  insist_for_directory user fuel description explanation s =
  Run (inr (Some (pathlib_Path user (picks user (picked s + n)))))
      {| picked := picked s + n + 1;
         replied := replied s;
         shown_dialogs :=
           shown_dialogs s
           ++ mjoin (replicate n [Askdirectory description;
                                  Showwarning explanation])
           ++ [Askdirectory description] |}
      EmptyString.
Proof.
  revert fuel s. induction n as [|n IH]; intros [|fuel] s Hcancel Hpick Hfuel;
    try lia; cbn [insist_for_directory].
  - rewrite (run_step _ _ _ _ _ (ask_for_directory_run _ _ _)).
    rewrite Nat.add_0_r in Hpick. rewrite decide_False
      by by rewrite length_0_empty.
    cbn [replicate mjoin list_join app]. unfold mret, M_ret, ret.
    do 2 f_equal; [by rewrite Nat.add_0_r|lia].
  - rewrite (run_step _ _ _ _ _ (ask_for_directory_run _ _ _)).
    rewrite decide_True.
    2:{ apply length_0_empty. rewrite <- (Nat.add_0_r (picked s)).
        apply Hcancel. lia. }
    rewrite (run_step _ _ _ _ _ (showwarning_run _ _)).
    rewrite IH; cbn [picked replied shown_dialogs].
    + replace (S (picked s) + n)%nat with (picked s + S n)%nat by lia.
      do 2 f_equal. cbn [replicate mjoin list_join].
      by rewrite <- !app_assoc.
    + intros i Hi. replace (S (picked s) + i)%nat with (picked s + S i)%nat
        by lia. apply Hcancel. lia.
    + by replace (S (picked s) + n)%nat with (picked s + S n)%nat by lia.
    + lia.
Qed.

Lemma insist_for_directory_returns_witness :
  outcome (insist_for_directory hasty 2 "Quelle" "Bitte waehlen" nothing_shown)
  = inr (Some (rel ["photos"])).
Proof.
  assert (∀ i, (i < 1)%nat →
               picks hasty (picked nothing_shown + i) = EmptyString) as Hc.
  { intros i Hi. by replace i with 0%nat by lia. }
  assert (picks hasty (picked nothing_shown + 1) ≠ EmptyString) as Hp by done.
  assert (1 < 2)%nat as Hf by lia.
  rewrite (insist_for_directory_returns hasty 2 1 "Quelle" "Bitte waehlen"
             nothing_shown Hc Hp Hf).
  reflexivity.
Defined.

Lemma insist_for_directory_final_replied user fuel description explanation
    (s : Dialogs) :
  ∃ r s', insist_for_directory user fuel description explanation s
          = Run (inr r) s' EmptyString ∧
          replied s' = replied s.
Proof.
  revert s. induction fuel as [|fuel IH]; intros s; cbn [insist_for_directory].
  { by do 2 eexists. }
  rewrite (run_step _ _ _ _ _ (ask_for_directory_run _ _ _)).
  case_decide.
  - rewrite (run_step _ _ _ _ _ (showwarning_run _ _)).
    match goal with
    | |- context [insist_for_directory _ _ _ _ ?st] =>
        destruct (IH st) as (r & s' & -> & Hr)
    end.
    by do 2 eexists.
  - by do 2 eexists.
Qed.

Lemma add_more_run user fuel is_more (targets : list Path) (s : Dialogs) :
  ∃ r s', add_more user fuel is_more targets s = Run (inr r) s' EmptyString ∧
          ∀ targets', r = Some targets' →
                      ∃ extra, targets' = (targets ++ extra)%list.
Proof.
  revert is_more targets s.
  induction fuel as [|fuel IH]; intros [] targets s; cbn [add_more].
  - do 2 eexists. split; [done|]. by intros ? [=].
  - do 2 eexists. split; [done|]. intros ? [= <-]. exists []. by rewrite app_nil_r.
  - rewrite (run_step _ _ _ _ _ (ask_for_directory_run _ _ _)).
    case_decide.
    + rewrite (run_step (showwarning _ ≫= _) _ _ targets
                 {| picked := S (picked s); replied := replied s;
                    shown_dialogs :=
                      (shown_dialogs s ++ [Askdirectory _])
                      ++ [Showwarning "Kein Verzeichnis gewaehlt!"] |}) by done.
      rewrite (run_step _ _ _ _ _ (askyesno_run _ _ _)).
      apply IH.
    + rewrite run_ret.
      rewrite (run_step _ _ _ _ _ (askyesno_run _ _ _)).
      edestruct IH as (r & s' & -> & Hr). do 2 eexists. split; [done|].
      intros targets' Ht. destruct (Hr _ Ht) as [extra ->].
      eexists. by rewrite <- app_assoc.
  - do 2 eexists. split; [done|]. intros ? [= <-]. exists []. by rewrite app_nil_r.
Qed.

(** What [ask_for_missing_options] hands on, whenever it gets through: at
    least one destination; the source folder of the command line when one
    was given; the destinations of the command line, followed by nothing
    when there were any (the user is then not asked for more) and by what
    the user picked otherwise. *)
Theorem ask_for_missing_options_result user (fuel : nat)
    (arguments : CommandLineArguments.t) (s : Dialogs)
    (options : ProgramOptions.t) :
  returns (ask_for_missing_options user fuel arguments s) (Some options) →
  ProgramOptions.destination_directory options ≠ [] ∧
  (∀ directory,
     CommandLineArguments.source_directory arguments = Some directory →
     ProgramOptions.source_directory options = directory) ∧
  (CommandLineArguments.target_directories arguments ≠ [] →
   ProgramOptions.destination_directory options
   = CommandLineArguments.target_directories arguments ∧
   replied (final (ask_for_missing_options user fuel arguments s))
   = replied s).
Proof.
  unfold returns, ask_for_missing_options.
  destruct arguments as [source targets].
  cbn [CommandLineArguments.source_directory
       CommandLineArguments.target_directories].
  assert (∃ r s1,
            (match source with
             | Some directory => mret (Some directory)
             | None =>
                 insist_for_directory user fuel
                   "Ordner mit allen Bildern auswaehlen."
                   "Quellverzeichnis muss ausgewaehlt sein."
             end) s = Run (inr r) s1 EmptyString ∧
            replied s1 = replied s ∧
            ∀ directory, source = Some directory → r = Some directory)
    as (r & s1 & Hsource & Hreplied & Hgiven).
  { destruct source as [directory|].
    - exists (Some directory), s. split_and!; [done|done|]. by intros ? [= <-].
    - destruct (insist_for_directory_final_replied user fuel
                  "Ordner mit allen Bildern auswaehlen."
                  "Quellverzeichnis muss ausgewaehlt sein." s)
        as (r & s1 & Hrun & Hr).
      exists r, s1. by split_and!. }
  rewrite (run_step _ _ _ _ _ Hsource).
  destruct r as [src|]; [|done].
  case_decide as Hlen.
  - destruct targets; [|done]. cbn [app].
    destruct (insist_for_directory_final_replied user fuel
                "Ordner in den die Bilder einsortiert werden sollen auswaehlen."
                "Mindestens ein Zielverzeichnis muss ausgewaehlt sein." s1)
      as (r & s2 & Hrun & _).
    rewrite outcome_bind, final_bind.
    rewrite (run_step _ _ _ _ _ Hrun).
    destruct r as [first|]; [|done].
    rewrite (run_step _ _ _ _ _ (askyesno_run _ _ _)).
    edestruct (add_more_run user fuel) as (r & s3 & -> & Hr).
    cbn [outcome final]. destruct r as [l|]; [|done].
    intros [= <-]. cbn [ProgramOptions.destination_directory
                        ProgramOptions.source_directory].
    destruct (Hr l eq_refl) as [extra ->].
    split_and!; [done| |done].
    intros directory Hd. specialize (Hgiven _ Hd). congruence.
  - rewrite run_ret. intros [= <-].
    cbn [ProgramOptions.destination_directory
         ProgramOptions.source_directory final].
    split_and!.
    + by destruct targets.
    + intros directory Hd. specialize (Hgiven _ Hd). congruence.
    + done.
Qed.

Lemma ask_for_missing_options_result_witness :
  returns (ask_for_missing_options hasty 3
             (CommandLineArguments.mk None []) nothing_shown)
          (Some (ProgramOptions.mk (rel ["photos"]) [album])) ∧
  ProgramOptions.destination_directory
    (ProgramOptions.mk (rel ["photos"]) [album]) ≠ [].
Proof.
  assert (returns (ask_for_missing_options hasty 3
                     (CommandLineArguments.mk None []) nothing_shown)
                  (Some (ProgramOptions.mk (rel ["photos"]) [album])))
    as Hr by reflexivity.
  split; [exact Hr|].
  exact (proj1 (ask_for_missing_options_result hasty 3 _ _ _ Hr)).
Defined.

(** With the source folder and at least one destination given on the
    command line, [ask_for_missing_options] shows no dialog at all and
    hands the folders on as they are. *)
Theorem ask_for_missing_options_silent user (fuel : nat)
    (directory : Path) (targets : list Path) (s : Dialogs) :
  targets ≠ [] →
  ask_for_missing_options user fuel
    (CommandLineArguments.mk (Some directory) targets) s
  = Run (inr (Some (ProgramOptions.mk directory targets))) s EmptyString.
Proof.
  intros Ht. unfold ask_for_missing_options.
  cbn [CommandLineArguments.source_directory
       CommandLineArguments.target_directories].
  rewrite run_ret, decide_False by by destruct targets.
  by rewrite run_ret.
Qed.

Lemma ask_for_missing_options_silent_witness :
  final (ask_for_missing_options hasty 0
           (CommandLineArguments.mk (Some (rel ["photos"])) [album])
           nothing_shown)
  = nothing_shown.
Proof.
  assert ([album] ≠ []) as Ht by done.
  by rewrite (ask_for_missing_options_silent hasty 0 (rel ["photos"]) [album]
                nothing_shown Ht).
Defined.
